(** * bioio_tifffile: dimension inference, chunk planning and pixel sizes

    A shallow embedding of [bioio_tifffile/reader.py] and the properties
    its design document states about it.

    Python values are modelled as they are used by the reader:
    - a [str] is a [string]; iterating a [str] yields its one-character
      strings ([chars]), and [join] is the empty-separator [str.join];
      labels are ASCII, as the axis letters of tifffile are;
    - a Python [int] is a [Z] (sizes and scene indices, never negative,
      are [nat]); a Python [float] is a binary64 [float];
    - [dict]s are [gmap]s; the list object held by [Reader.chunk_dims]
      lives in a heap, because the reader appends to it in place;
    - a function that can raise returns a [result]; methods of [Reader]
      run in a state-and-exception monad over the file system, the heap,
      the I/O log, the warnings and the instance itself. *)

From Stdlib Require Import ZArith Floats Ascii String List Permutation Lia.
From Stdlib Require DecimalString DecimalNat.
From stdpp Require Import gmap strings list.

Open Scope string_scope.
Open Scope list_scope.
Open Scope Z_scope.

(* ===================================================================== *)
(** ** Python strings *)
(* ===================================================================== *)

(** [for c in s]: the one-character strings of [s], left to right. *)
Fixpoint chars (s : string) : list string :=
  match s with
  | EmptyString => []
  | String c s' => String c EmptyString :: chars s'
  end.

(** [str.join] with the empty separator. *)
Definition join (l : list string) : string :=
  foldr String.append EmptyString l.

(** [x in l] for a list [l]. *)
Definition py_in (x : string) (l : list string) : bool :=
  bool_decide (x ∈ l).

(** [l.index(x)]: position of the first occurrence; [None] stands for
    the [ValueError] Python raises when there is none. *)
Fixpoint list_index (l : list string) (x : string) : option nat :=
  match l with
  | [] => None
  | y :: l' => if decide (y = x) then Some 0%nat else S <$> list_index l' x
  end.

(** [s.find(x)] for a one-character [x]: position of the first
    occurrence, [-1] when there is none. *)
Definition str_find (s x : string) : Z :=
  match list_index (chars s) x with
  | Some i => Z.of_nat i
  | None => -1
  end.

(** [c.upper()] on an ASCII character. *)
Definition ascii_upper (c : ascii) : ascii :=
  let n := N_of_ascii c in
  if ((97 <=? n) && (n <=? 122))%N then ascii_of_N (n - 32) else c.

(** [s.upper()] *)
Fixpoint str_upper (s : string) : string :=
  match s with
  | EmptyString => EmptyString
  | String c s' => String (ascii_upper c) (str_upper s')
  end.

(* ===================================================================== *)
(** ** Exceptions *)
(* ===================================================================== *)

(** The exceptions the reader raises or lets through. Messages are not
    modelled, except the key of a [KeyError]. All of them derive from
    Python's [Exception]. *)
Inductive exn : Type :=
| KeyError (key : string)
| IndexError
| ValueError
| TypeError
| ZeroDivisionError
| OverflowError
| FileNotFoundError
| TiffFileError
| ConflictingArgumentsError
| UnsupportedFileFormatError.

Definition result (A : Type) : Type := exn + A.

Definition raise {A} (e : exn) : result A := inl e.
Definition ok {A} (a : A) : result A := inr a.

#[global] Instance result_ret : MRet result := λ A a, inr a.
#[global] Instance result_bind : MBind result :=
  λ A B k r, match r with inl e => inl e | inr a => k a end.
#[global] Instance result_fmap : FMap result :=
  λ A B f r, match r with inl e => inl e | inr a => inr (f a) end.

(** [l[i]] on a list, [d[k]] on a dict. *)
Definition list_get {A} (l : list A) (i : nat) : result A :=
  match l !! i with
  | Some a => ok a
  | None => raise IndexError
  end.

Definition dict_get {A} (d : gmap string A) (k : string) : result A :=
  match d !! k with
  | Some a => ok a
  | None => raise (KeyError k)
  end.

(** Run [f] over a list, left to right, stopping at the first exception. *)
Fixpoint rmap {A B} (f : A → result B) (l : list A) : result (list B) :=
  match l with
  | [] => ok []
  | a :: l' => b ← f a; bs ← rmap f l'; ok (b :: bs)
  end.

(* ===================================================================== *)
(** ** Python values and arithmetic *)
(* ===================================================================== *)

(** The values found in TIFF tags and ImageJ metadata. *)
#[warnings="-register-all"] Inductive pyval : Type :=
| VNone
| VStr (s : string)
| VInt (z : Z)
| VFloat (f : float)
| VTuple (l : list pyval).

(** [float(z)]: nearest binary64, [OverflowError] beyond its range. *)
Definition float_of_Z (z : Z) : result float :=
  let f := SF2Prim (binary_normalize 53 1024 z 0 false) in
  if is_infinity f then raise OverflowError else ok f.

(** [x / y] on two [int]s: the correctly rounded quotient. The quotient
    is taken with more than 60 significant bits and a sticky bit, then
    rounded once. *)
Definition int_truediv (x y : Z) : result float :=
  if y =? 0 then raise ZeroDivisionError
  else
    let k := 64 + Z.log2 (Z.abs y) in
    let n := Z.abs x * 2 ^ k in
    let q := n / Z.abs y in
    let sticky := if n mod Z.abs y =? 0 then 0 else 1 in
    let m := Z.sgn x * Z.sgn y * (2 * q + sticky) in
    let f := SF2Prim (binary_normalize 53 1024 m (- k - 1) ((x =? 0) && (y <? 0))) in
    if is_infinity f then raise OverflowError else ok f.

Definition str_repeat (s : string) (n : Z) : string :=
  join (replicate (Z.to_nat n) s).

(** [a * b] *)
Definition py_mul (a b : pyval) : result pyval :=
  match a, b with
  | VInt x, VInt y => ok (VInt (x * y))
  | VInt x, VFloat g => f ← float_of_Z x; ok (VFloat (f * g))
  | VFloat f, VInt y => g ← float_of_Z y; ok (VFloat (f * g))
  | VFloat f, VFloat g => ok (VFloat (f * g))
  | VStr s, VInt n | VInt n, VStr s => ok (VStr (str_repeat s n))
  | VTuple l, VInt n | VInt n, VTuple l =>
      ok (VTuple (concat (replicate (Z.to_nat n) l)))
  | _, _ => raise TypeError
  end.

(** [a / b]: both operands are converted first, then a zero divisor is
    refused. *)
Definition py_truediv (a b : pyval) : result pyval :=
  match a, b with
  | VInt x, VInt y => VFloat <$> int_truediv x y
  | VInt x, VFloat g =>
      f ← float_of_Z x;
      if PrimFloat.eqb g 0 then raise ZeroDivisionError else ok (VFloat (f / g))
  | VFloat f, VInt y =>
      g ← float_of_Z y;
      if PrimFloat.eqb g 0 then raise ZeroDivisionError else ok (VFloat (f / g))
  | VFloat f, VFloat g =>
      if PrimFloat.eqb g 0 then raise ZeroDivisionError else ok (VFloat (f / g))
  | _, _ => raise TypeError
  end.

(** [a, b = v] *)
Definition unpack2 (v : pyval) : result (pyval * pyval) :=
  match v with
  | VTuple [a; b] => ok (a, b)
  | VTuple _ => raise ValueError
  | VStr s =>
      match chars s with
      | [a; b] => ok (VStr a, VStr b)
      | _ => raise ValueError
      end
  | _ => raise TypeError
  end.

(** Equality of a dict key with a looked-up value: [1 == 1.0] holds in
    Python, and an [IntEnum] member is its integer. The integer side is
    converted, which is exact for the small codes used as keys. *)
Definition py_key_eqb (key v : pyval) : bool :=
  match key, v with
  | VNone, VNone => true
  | VStr s, VStr t => bool_decide (s = t)
  | VInt x, VInt y => x =? y
  | VInt x, VFloat f | VFloat f, VInt x =>
      match float_of_Z x with
      | inr g => PrimFloat.eqb f g
      | inl _ => false
      end
  | VFloat f, VFloat g => PrimFloat.eqb f g
  | _, _ => false
  end.

(** [d.get(k, default)] on a dict given by its items. *)
Definition items_get (d : list (pyval * pyval)) (k default : pyval) : pyval :=
  match List.find (λ kv, py_key_eqb kv.1 k) d with
  | Some kv => kv.2
  | None => default
  end.

(* ===================================================================== *)
(** ** The unit table *)
(* ===================================================================== *)

(** [tifffile.RESUNIT], an [IntEnum] with the codes of the TIFF
    ResolutionUnit tag. *)
Module RESUNIT.
Definition NONE : pyval := VInt 1.
Definition INCH : pyval := VInt 2.
Definition CENTIMETER : pyval := VInt 3.
Definition MILLIMETER : pyval := VInt 4.
Definition MICROMETER : pyval := VInt 5.
End RESUNIT.

Set Warnings "-inexact-float".

Definition _NAME_TO_MICRONS : list (pyval * pyval) :=
  [ (VStr "pm", VFloat 1e-6);
    (VStr "picometer", VFloat 1e-6);
    (VStr "nm", VFloat 1e-3);
    (VStr "nanometer", VFloat 1e-3);
    (VStr "micron", VInt 1);
    (VStr "µm", VInt 1);
    (VStr "um", VInt 1);
    (VStr "\u00B5m", VInt 1);               (* the escaped spelling, seven characters *)
    (RESUNIT.NONE, VInt 1);
    (RESUNIT.MICROMETER, VInt 1);
    (VNone, VInt 1);
    (VStr "mm", VFloat 1e3);
    (VStr "millimeter", VFloat 1e3);
    (RESUNIT.MILLIMETER, VFloat 1e3);
    (VStr "cm", VFloat 1e4);
    (VStr "centimeter", VFloat 1e4);
    (RESUNIT.CENTIMETER, VFloat 1e4);
    (VStr "cal", VFloat (2.54 * 1e4));
    (RESUNIT.INCH, VFloat (2.54 * 1e4)) ].

Set Warnings "+inexact-float".

(* ===================================================================== *)
(** ** Files as tifffile presents them *)
(* ===================================================================== *)

Record TiffPage : Type := { tags : gmap string pyval }.

Record Scene : Type := {
  shape : list nat;
  axes : string;            (* scene.pages.axes *)
  dtype : string;
  pages : list TiffPage;
  data : list nat → Z       (* the element at each index *)
}.

Record TiffFile : Type := {
  series : list Scene;
  is_imagej : bool;
  imagej_metadata : option (gmap string pyval)
}.

(** What a path holds: [TiffFile(...)] raises [TiffFileError] on
    anything that is not a TIFF. *)
Inductive File : Type :=
| NotTiff
| Tiff (t : TiffFile).

Definition open_tiff (f : File) : result TiffFile :=
  match f with
  | Tiff t => ok t
  | NotTiff => raise TiffFileError
  end.

(* ===================================================================== *)
(** ** Pixel sizes *)
(* ===================================================================== *)

Definition PixelSizes : Type := (pyval * pyval * pyval)%type.

Definition _get_pixel_size (path_or_file : File) (series_index : nat)
  : result PixelSizes :=
  tiff ← open_tiff path_or_file;
  scene ← list_get (series tiff) series_index;
  page ← list_get (pages scene) 0;
  let tags := tags page in
  '(unit, z_size) ←
    (if is_imagej tiff then
       md ← match imagej_metadata tiff with
            | Some md => ok md
            | None => raise TypeError
            end;
       unit ← dict_get md "unit";
       ok (unit, default VNone (md !! "spacing"))
     else
       unit ← dict_get tags "ResolutionUnit";
       ok (unit, VNone));
  let scalar := items_get _NAME_TO_MICRONS unit (VInt 1) in
  xres ← dict_get tags "XResolution";
  '(x_npix, x_res_units) ← unpack2 xres;
  yres ← dict_get tags "YResolution";
  '(y_npix, y_res_units) ← unpack2 yres;
  x_size ← py_mul scalar x_res_units ≫= λ v, py_truediv v x_npix;
  y_size ← py_mul scalar y_res_units ≫= λ v, py_truediv v y_npix;
  z_size ← match z_size with
            | VNone => ok VNone
            | _ => py_mul z_size scalar
            end;
  ok (z_size, y_size, x_size).

(* ===================================================================== *)
(** ** The reader's state *)
(* ===================================================================== *)

(** A reference to a Python list object. *)
Definition loc : Type := nat.

(** The [chunk_dims] argument: a [str], or a reference to the caller's
    list. *)
Inductive chunk_dims_arg : Type :=
| ChunkStr (s : string)
| ChunkList (l : loc).

(** The [dim_order] argument: [None], one [str] for all scenes, or a list
    with one optional [str] per scene. *)
Inductive dim_order_arg : Type :=
| DimNone
| DimStr (s : string)
| DimList (l : list (option string)).

(** An element of the [channel_names] list: a name, or a list of names. *)
Inductive channel_item : Type :=
| ChanName (s : string)
| ChanList (l : list string).

Record Reader : Type := {
  _path : string;
  chunk_dims : loc;
  _dim_order : dim_order_arg;
  _channel_names : option (list channel_item);
  _scenes : option (list string);
  _physical_pixel_sizes : option PixelSizes;
  _current_scene_index : nat
}.

(** The instance before [__init__] has run: the class-level attributes
    [_scenes] and [_physical_pixel_sizes] are [None] and the scene index
    is 0; the instance attributes are assigned by [__init__]. *)
Definition new_Reader : Reader :=
  {| _path := EmptyString; chunk_dims := 0%nat; _dim_order := DimNone;
     _channel_names := None; _scenes := None;
     _physical_pixel_sizes := None; _current_scene_index := 0%nat |}.

Definition set_path (v : string) (r : Reader) : Reader :=
  {| _path := v; chunk_dims := chunk_dims r; _dim_order := _dim_order r;
     _channel_names := _channel_names r; _scenes := _scenes r;
     _physical_pixel_sizes := _physical_pixel_sizes r;
     _current_scene_index := _current_scene_index r |}.

Definition set_chunk_dims (v : loc) (r : Reader) : Reader :=
  {| _path := _path r; chunk_dims := v; _dim_order := _dim_order r;
     _channel_names := _channel_names r; _scenes := _scenes r;
     _physical_pixel_sizes := _physical_pixel_sizes r;
     _current_scene_index := _current_scene_index r |}.

Definition set_dim_order (v : dim_order_arg) (r : Reader) : Reader :=
  {| _path := _path r; chunk_dims := chunk_dims r; _dim_order := v;
     _channel_names := _channel_names r; _scenes := _scenes r;
     _physical_pixel_sizes := _physical_pixel_sizes r;
     _current_scene_index := _current_scene_index r |}.

Definition set_channel_names (v : option (list channel_item)) (r : Reader) : Reader :=
  {| _path := _path r; chunk_dims := chunk_dims r; _dim_order := _dim_order r;
     _channel_names := v; _scenes := _scenes r;
     _physical_pixel_sizes := _physical_pixel_sizes r;
     _current_scene_index := _current_scene_index r |}.

Definition set_scenes (v : option (list string)) (r : Reader) : Reader :=
  {| _path := _path r; chunk_dims := chunk_dims r; _dim_order := _dim_order r;
     _channel_names := _channel_names r; _scenes := v;
     _physical_pixel_sizes := _physical_pixel_sizes r;
     _current_scene_index := _current_scene_index r |}.

Definition set_physical_pixel_sizes (v : option PixelSizes) (r : Reader) : Reader :=
  {| _path := _path r; chunk_dims := chunk_dims r; _dim_order := _dim_order r;
     _channel_names := _channel_names r; _scenes := _scenes r;
     _physical_pixel_sizes := v;
     _current_scene_index := _current_scene_index r |}.

Inductive io_event : Type :=
| EvOpen (path : string)
| EvReadPixels (path : string) (scene : nat).

Inductive message : Type :=
| LogOmeTiffHint                    (* log.warning about ".ome.tif" *)
| WarnPixelSize (e : exn).          (* "Could not parse tiff pixel size: {e}" *)

(** Everything a method can read or change. [heap] gives the content
    of every list object; [next_loc] is the first unused reference. *)
Record State : Type := {
  files : gmap string File;
  heap : loc → list string;
  next_loc : loc;
  io_log : list io_event;
  messages : list message;
  self : Reader
}.

Definition with_heap (h : loc → list string) (n : loc) (s : State) : State :=
  {| files := files s; heap := h; next_loc := n; io_log := io_log s;
     messages := messages s; self := self s |}.

Definition with_io_log (l : list io_event) (s : State) : State :=
  {| files := files s; heap := heap s; next_loc := next_loc s; io_log := l;
     messages := messages s; self := self s |}.

Definition with_messages (m : list message) (s : State) : State :=
  {| files := files s; heap := heap s; next_loc := next_loc s;
     io_log := io_log s; messages := m; self := self s |}.

Definition with_self (r : Reader) (s : State) : State :=
  {| files := files s; heap := heap s; next_loc := next_loc s;
     io_log := io_log s; messages := messages s; self := r |}.

(** Methods: state passing, with the state kept when an exception
    leaves the method. *)
Definition M (A : Type) : Type := State → State * result A.

#[global] Instance M_ret : MRet M := λ A a s, (s, inr a).
#[global] Instance M_bind : MBind M :=
  λ A B k m s,
    match m s with
    | (s', inl e) => (s', inl e)
    | (s', inr a) => k a s'
    end.

Definition lift {A} (r : result A) : M A := λ s, (s, r).
Definition throw {A} (e : exn) : M A := lift (raise e).
Definition get_self : M Reader := λ s, (s, ok (self s)).
Definition modify_self (f : Reader → Reader) : M unit :=
  λ s, (with_self (f (self s)) s, ok tt).
Definition emit (m : message) : M unit :=
  λ s, (with_messages (messages s ++ [m]) s, ok tt).

(** [try: m except Exception as e: h e] *)
Definition try_except {A} (m : M A) (h : exn → M A) : M A :=
  λ s,
    match m s with
    | (s', inl e) => h e s'
    | (s', inr a) => (s', inr a)
    end.

(** [fs.open(path)] *)
Definition fs_open (path : string) : M File :=
  λ s,
    match files s !! path with
    | Some f => (with_io_log (io_log s ++ [EvOpen path]) s, ok f)
    | None => (s, raise FileNotFoundError)
    end.

(** List objects. *)
Definition list_new (v : list string) : M loc :=
  λ s,
    let l := next_loc s in
    (with_heap (λ l', if decide (l' = l) then v else heap s l') (S l) s, ok l).
Definition list_read (l : loc) : M (list string) :=
  λ s, (s, ok (heap s l)).
Definition list_append (l : loc) (x : string) : M unit :=
  λ s,
    (with_heap (λ l', if decide (l' = l) then heap s l ++ [x] else heap s l')
               (next_loc s) s, ok tt).

(** [for x in l: body x] *)
Fixpoint for_each {A} (l : list A) (body : A → M unit) : M unit :=
  match l with
  | [] => mret tt
  | x :: l' => body x;; for_each l' body
  end.

(* ===================================================================== *)
(** ** utils.py *)
(* ===================================================================== *)

(** [str(i)] for a non-negative [int]. *)
Definition str_of_nat (i : nat) : string :=
  DecimalString.NilEmpty.string_of_uint (Nat.to_uint i).

Definition generate_ome_image_id (image_id : nat) : string :=
  String.append "Image:" (str_of_nat image_id).

(* ===================================================================== *)
(** ** Reader: construction *)
(* ===================================================================== *)

(** [needle in s] for two [str]s. *)
Fixpoint str_contains (needle s : string) : bool :=
  String.prefix needle s ||
  match s with
  | EmptyString => false
  | String _ s' => str_contains needle s'
  end.

(** [io.pathlike_to_fs(image, enforce_exists=True)] of bioio_base: the
    path, provided a file is there. *)
Definition pathlike_to_fs (image : string) : M string :=
  λ s,
    match files s !! image with
    | Some _ => (s, ok image)
    | None => (s, raise FileNotFoundError)
    end.

Definition _is_supported_image (path : string) : M bool :=
  try_except
    (open_resource ← fs_open path;
     _ ← lift (open_tiff open_resource);
     mret true)
    (λ e,
       match e with
       | TiffFileError | TypeError => mret false
       | _ => throw e
       end).

(** The [scenes] property. *)
Definition scenes : M (list string) :=
  self ← get_self;
  match _scenes self with
  | Some sc => mret sc
  | None =>
      open_resource ← fs_open (_path self);
      tiff ← lift (open_tiff open_resource);
      let sc := generate_ome_image_id <$> seq 0 (length (series tiff)) in
      modify_self (set_scenes (Some sc));;
      mret sc
  end.

Definition __init__ (image : string) (chunk_dims : chunk_dims_arg)
    (dim_order : dim_order_arg) (channel_names : option (list channel_item))
  : M unit :=
  (if str_contains ".ome.tif" image then emit LogOmeTiffHint else mret tt);;
  path ← pathlike_to_fs image;
  modify_self (set_path path);;
  chunk_dims ← match chunk_dims with
               | ChunkStr s => list_new (chars s)
               | ChunkList l => mret l
               end;
  match dim_order with
  | DimList l =>
      sc ← scenes;
      if negb (length l =? length sc)%nat
      then throw ConflictingArgumentsError else mret tt
  | _ => mret tt
  end;;
  match channel_names with
  | Some (ChanList c0 :: rest) =>
      sc ← scenes;
      if negb (length (ChanList c0 :: rest) =? length sc)%nat
      then throw ConflictingArgumentsError else mret tt
  | _ => mret tt
  end;;
  modify_self (set_chunk_dims chunk_dims);;
  modify_self (set_dim_order dim_order);;
  modify_self (set_channel_names channel_names);;
  self ← get_self;
  supported ← _is_supported_image (_path self);
  if negb supported then throw UnsupportedFileFormatError else mret tt.

(* ===================================================================== *)
(** ** Reader: dimension inference *)
(* ===================================================================== *)

(** ["Q"] is tifffile's unknown dimension, ["I"] a generic image
    sequence. *)
Definition UNKNOWN_DIM_CHARS : list string := ["Q"; "I"].

(** [Reader._guess_dim_order] is inherited from the base class of
    bioio_base: a guess of the axis letters from the shape alone. *)
Class BaseReader : Type := { _guess_dim_order : list nat → string }.

(** The inner loop of the merge: the first guessed dimension that is
    neither placed already nor named by the metadata. *)
Fixpoint first_free_guess (guessed best_guess meta : list string)
  : option string :=
  match guessed with
  | [] => None
  | guessed_dim :: rest =>
      if negb (py_in guessed_dim best_guess) && negb (py_in guessed_dim meta)
      then Some guessed_dim
      else first_free_guess rest best_guess meta
  end.

(** One round of the outer loop. *)
Definition merge_step (dims_from_meta guessed_dims : string)
    (best_guess : list string) (dim_from_meta : string) : list string :=
  if negb (py_in dim_from_meta UNKNOWN_DIM_CHARS)
  then best_guess ++ [dim_from_meta]
  else
    match first_free_guess (chars guessed_dims) best_guess
                           (chars dims_from_meta) with
    | Some guessed_dim => best_guess ++ [guessed_dim]
    | None => best_guess ++ [dim_from_meta]
    end.

Definition _merge_dim_guesses (dims_from_meta guessed_dims : string) : string :=
  join (fold_left (merge_step dims_from_meta guessed_dims)
                  (chars dims_from_meta) []).

Definition all_known (dims_from_meta : string) : bool :=
  forallb (λ i, negb (py_in i UNKNOWN_DIM_CHARS)) (chars dims_from_meta).

Definition _guess_tiff_dim_order `{BaseReader} (tiff : TiffFile)
  : M (list string) :=
  self ← get_self;
  scene ← lift (list_get (series tiff) (_current_scene_index self));
  let dims_from_meta := axes scene in
  if all_known dims_from_meta
  then mret (chars dims_from_meta)
  else
    let guessed_dims := _guess_dim_order (shape scene) in
    mret (chars (_merge_dim_guesses dims_from_meta guessed_dims)).

Definition _get_dims_for_scene `{BaseReader} (tiff : TiffFile)
  : M (list string) :=
  self ← get_self;
  match _dim_order self with
  | DimNone => _guess_tiff_dim_order tiff
  | DimList l =>
      entry ← lift (list_get l (_current_scene_index self));
      match entry with
      | Some s => mret (chars s)
      | None => _guess_tiff_dim_order tiff
      end
  | DimStr s => mret (chars s)
  end.

(* ===================================================================== *)
(** ** Arrays *)
(* ===================================================================== *)

(** An axis number as numpy reads it: negative numbers count from the
    end. *)
Definition norm_axis (n : nat) (a : Z) : option nat :=
  if (0 <=? a) && (a <? Z.of_nat n) then Some (Z.to_nat a)
  else if (- Z.of_nat n <=? a) && (a <? 0) then Some (Z.to_nat (a + Z.of_nat n))
  else None.

(** [transpose(axes)] as it acts on anything listed per axis (labels,
    sizes, indices): axis [j] of the result is axis [axes[j]] of the
    argument. numpy and dask refuse [axes] that are not a permutation
    of the argument's axes. *)
Definition np_transpose {A} (axes : list Z) (l : list A) : result (list A) :=
  if negb (length axes =? length l)%nat then raise ValueError
  else
    match mapM (norm_axis (length l)) axes with
    | None => raise ValueError
    | Some ax =>
        if bool_decide (NoDup ax)
        then match mapM (λ i, l !! i) ax with
             | Some r => ok r
             | None => raise IndexError
             end
        else raise ValueError
    end.

Record ndarray : Type := { nd_shape : list nat; nd_at : list nat → Z }.

(** One entry of an index tuple: an [int], or [slice(None, None, None)]. *)
Inductive index_sel : Type :=
| Idx (i : nat)
| SliceAll.

(** [np.ndenumerate] order: all indices of an array of the given shape,
    last axis fastest. *)
Fixpoint ndindex (shape : list nat) : list (list nat) :=
  match shape with
  | [] => [[]]
  | n :: rest => i ← seq 0 n; (λ ix, i :: ix) <$> ndindex rest
  end.

(* ===================================================================== *)
(** ** Reader: the delayed array *)
(* ===================================================================== *)

(** Modelled from the spec: [dimensions.REQUIRED_CHUNK_DIMS] of
    bioio_base, the spatial-Y, spatial-X and samples axes that are
    always chunked. *)
Definition REQUIRED_CHUNK_DIMS : list string := ["Y"; "X"; "S"].

(** The four lists filled by the loop over [zip(dims, shape)]. *)
Record Partition : Type := {
  p_non_chunk_dim_order : list string;
  p_non_chunk_shape : list nat;
  p_chunk_dim_order : list string;
  p_chunk_shape : list nat
}.

Definition partition_step (chunk_dims : list string) (acc : Partition)
    (ds : string * nat) : Partition :=
  let '(dim, size) := ds in
  if py_in dim chunk_dims
  then {| p_non_chunk_dim_order := p_non_chunk_dim_order acc;
          p_non_chunk_shape := p_non_chunk_shape acc;
          p_chunk_dim_order := p_chunk_dim_order acc ++ [dim];
          p_chunk_shape := p_chunk_shape acc ++ [size] |}
  else {| p_non_chunk_dim_order := p_non_chunk_dim_order acc ++ [dim];
          p_non_chunk_shape := p_non_chunk_shape acc ++ [size];
          p_chunk_dim_order := p_chunk_dim_order acc;
          p_chunk_shape := p_chunk_shape acc |}.

Definition partition_dims (selected_scene_dims : string) (shape : list nat)
    (chunk_dims : list string) : Partition :=
  fold_left (partition_step chunk_dims)
            (zip (chars selected_scene_dims) shape)
            {| p_non_chunk_dim_order := []; p_non_chunk_shape := [];
               p_chunk_dim_order := []; p_chunk_shape := [] |}.

(** [{dim: selected_scene_dims.find(dim) for dim in selected_scene_dims}] *)
Definition match_map (selected_scene_dims : string) : gmap string Z :=
  fold_left (λ m dim, <[dim := str_find selected_scene_dims dim]> m)
            (chars selected_scene_dims) ∅.

(** The local variables of [_create_dask_array] once the lengths have
    been checked. *)
Record ChunkPlan : Type := {
  non_chunk_dim_order : list string;
  non_chunk_shape : list nat;
  chunk_dim_order : list string;
  chunk_shape : list nat;
  blocked_dim_order : list string;
  blocked_shape : list nat;
  transposer : list Z;
  transpose_indices : list Z
}.

Definition chunk_plan (selected_scene_dims : string) (shape : list nat)
    (chunk_dims : list string) : result ChunkPlan :=
  let p := partition_dims selected_scene_dims shape chunk_dims in
  let blocked_dim_order := p_non_chunk_dim_order p ++ p_chunk_dim_order p in
  let blocked_shape :=
    p_non_chunk_shape p ++ replicate (length (p_chunk_shape p)) 1%nat in
  let match_map := match_map selected_scene_dims in
  transposer ← rmap (dict_get match_map) blocked_dim_order;
  transpose_indices ←
    rmap (λ '(i, d),
            match list_index blocked_dim_order d with
            | None => raise ValueError
            | Some new_index =>
                if negb (new_index =? i)%nat
                then ok (Z.of_nat new_index)
                else ok (Z.of_nat i)
            end)
         (zip (seq 0 (length (chars selected_scene_dims)))
              (chars selected_scene_dims));
  ok {| non_chunk_dim_order := p_non_chunk_dim_order p;
        non_chunk_shape := p_non_chunk_shape p;
        chunk_dim_order := p_chunk_dim_order p;
        chunk_shape := p_chunk_shape p;
        blocked_dim_order := blocked_dim_order;
        blocked_shape := blocked_shape;
        transposer := transposer;
        transpose_indices := transpose_indices |}.

(** [da.from_delayed(delayed(Reader._get_image_data)(...), shape, dtype)]:
    the arguments of the read that has not happened yet. *)
Record LazyArray : Type := {
  la_path : string;
  la_scene : nat;
  la_retrieve_indices : list index_sel;
  la_transpose_indices : list Z;
  la_shape : list nat;
  la_dtype : string
}.

(** A dask array made of lazy blocks: the grid of blocks, and for every
    axis of the array the axis of the grid it shows ([da_axes]). *)
Record DaskArray : Type := {
  da_grid_shape : list nat;
  da_blocks : list (list nat * LazyArray);
  da_axes : list Z
}.

Definition lazy_arrays (path : string) (scene : nat) (dtype : string)
    (plan : ChunkPlan) : list (list nat * LazyArray) :=
  (λ np_index,
     let indices_with_slices :=
       (Idx <$> take (length (non_chunk_shape plan)) np_index)
       ++ replicate (length (chunk_shape plan)) SliceAll in
     (np_index,
      {| la_path := path; la_scene := scene;
         la_retrieve_indices := indices_with_slices;
         la_transpose_indices := transposer plan;
         la_shape := chunk_shape plan; la_dtype := dtype |}))
  <$> ndindex (blocked_shape plan).

(** [da.block(lazy_arrays.tolist())]: the blocks side by side, the axes
    in blocked order. *)
Definition da_block (path : string) (scene : nat) (dtype : string)
    (plan : ChunkPlan) : DaskArray :=
  {| da_grid_shape := blocked_shape plan;
     da_blocks := lazy_arrays path scene dtype plan;
     da_axes := Z.of_nat <$> seq 0 (length (blocked_shape plan)) |}.

(** [da.transpose(a, axes)]: axis [j] of the result is axis [axes[j]] of
    [a]. Like numpy, dask refuses [axes] that do not match the number of
    axes of [a], that name an axis [a] does not have or that repeat an
    axis, with a [ValueError]. *)
Definition da_transpose (a : DaskArray) (axes : list Z) : result DaskArray :=
  new_axes ← np_transpose axes (da_axes a);
  ok {| da_grid_shape := da_grid_shape a;
        da_blocks := da_blocks a;
        da_axes := new_axes |}.

(** The array [_create_dask_array] returns when dask accepts the
    transposition: the blocks of the plan, shown with the axes
    [transpose_indices]. *)
Definition assemble (path : string) (scene : nat) (dtype : string)
    (plan : ChunkPlan) : DaskArray :=
  {| da_grid_shape := blocked_shape plan;
     da_blocks := lazy_arrays path scene dtype plan;
     da_axes := transpose_indices plan |}.

(** The body of the first loop:
    [if dim not in self.chunk_dims: self.chunk_dims.append(dim)]. *)
Definition add_if_missing (dim : string) : M unit :=
  self ← get_self;
  current ← list_read (chunk_dims self);
  if negb (py_in dim current)
  then list_append (chunk_dims self) dim
  else mret tt.

Definition _create_dask_array (tiff : TiffFile)
    (selected_scene_dims_list : list string) : M DaskArray :=
  for_each REQUIRED_CHUNK_DIMS add_if_missing;;
  self ← get_self;
  current ← list_read (chunk_dims self);
  upper ← list_new (str_upper <$> current);
  modify_self (set_chunk_dims upper);;
  self ← get_self;
  selected_scene ← lift (list_get (series tiff) (_current_scene_index self));
  let selected_scene_dims := join selected_scene_dims_list in
  if negb (length (shape selected_scene) =? String.length selected_scene_dims)%nat
  then throw ConflictingArgumentsError
  else
    current ← list_read (chunk_dims self);
    plan ← lift (chunk_plan selected_scene_dims (shape selected_scene) current);
    let image_data :=
      da_block (_path self) (_current_scene_index self)
               (dtype selected_scene) plan in
    lift (da_transpose image_data (transpose_indices plan)).

(* ===================================================================== *)
(** ** Reader: pixel sizes *)
(* ===================================================================== *)

(** The [physical_pixel_sizes] property. *)
Definition physical_pixel_sizes : M PixelSizes :=
  self ← get_self;
  match _physical_pixel_sizes self with
  | Some sizes => mret sizes
  | None =>
      open_resource ← fs_open (_path self);
      sizes ← try_except
                (lift (_get_pixel_size open_resource (_current_scene_index self)))
                (λ e, emit (WarnPixelSize e);; mret (VNone, VNone, VNone));
      modify_self (set_physical_pixel_sizes (Some sizes));;
      mret sizes
  end.

(* ===================================================================== *)
(** ** Reader: reading one block *)
(* ===================================================================== *)

(** [arr.transpose(axes)] on an array: [positions[j]] is the axis of
    [arr] shown as axis [j]. *)
Definition nd_transpose (axes : list Z) (arr : ndarray) : result ndarray :=
  new_shape ← np_transpose axes (nd_shape arr);
  positions ← np_transpose axes (seq 0 (length (nd_shape arr)));
  ok {| nd_shape := new_shape;
        nd_at := λ ix,
          nd_at arr
            ((λ p, default 0%nat
                     (j ← fst <$> list_find (λ a, a = p) positions; ix !! j))
             <$> seq 0 (length positions)) |}.

(** The shape left by an index tuple; an index beyond its axis, or more
    indices than axes, is an [IndexError]. *)
Fixpoint index_shape (sel : list index_sel) (shape : list nat)
  : result (list nat) :=
  match sel, shape with
  | [], _ => ok shape
  | _ :: _, [] => raise IndexError
  | Idx i :: sel', n :: shape' =>
      if (i <? n)%nat then index_shape sel' shape' else raise IndexError
  | SliceAll :: sel', n :: shape' => (λ r, n :: r) <$> index_shape sel' shape'
  end.

(** The index into the whole array for an index into the selection. *)
Fixpoint full_index (sel : list index_sel) (ix : list nat) : list nat :=
  match sel with
  | [] => ix
  | Idx i :: sel' => i :: full_index sel' ix
  | SliceAll :: sel' =>
      match ix with
      | [] => []
      | j :: ix' => j :: full_index sel' ix'
      end
  end.

(** [arr[retrieve_indices]] *)
Definition nd_getitem (sel : list index_sel) (arr : ndarray) : result ndarray :=
  new_shape ← index_shape sel (nd_shape arr);
  ok {| nd_shape := new_shape;
        nd_at := λ ix, nd_at arr (full_index sel ix) |}.

Definition read_pixels (path : string) (scene : nat) : M unit :=
  λ s, (with_io_log (io_log s ++ [EvReadPixels path scene]) s, ok tt).

Definition _get_image_data (path : string) (scene : nat)
    (retrieve_indices : list index_sel) (transpose_indices : list Z)
  : M ndarray :=
  open_resource ← fs_open path;
  tiff ← lift (open_tiff open_resource);
  sc ← lift (list_get (series tiff) scene);
  arr ← lift (nd_transpose transpose_indices
                {| nd_shape := shape sc; nd_at := data sc |});
  chunk ← lift (nd_getitem retrieve_indices arr);
  read_pixels path scene;;
  mret chunk.

(* ===================================================================== *)
(** ** Specification-level definitions *)
(* ===================================================================== *)

(** What the first loop of [_create_dask_array] leaves in the list:
    each required dimension appended unless it is there already. *)
Definition with_required (chunk_dims : list string) : list string :=
  fold_left (λ acc dim, if py_in dim acc then acc else acc ++ [dim])
            REQUIRED_CHUNK_DIMS chunk_dims.

(** The list [self.chunk_dims] is rebound to. *)
Definition normalized_chunk_dims (chunk_dims : list string) : list string :=
  str_upper <$> with_required chunk_dims.

(** Where [_get_pixel_size] takes the unit token and the Z spacing
    from: the ImageJ metadata of an ImageJ file, the ResolutionUnit tag
    (and no spacing) otherwise. *)
Definition unit_source (tiff : TiffFile) (page : TiffPage)
    (unit z_size : pyval) : Prop :=
  if is_imagej tiff
  then ∃ md, imagej_metadata tiff = Some md ∧ md !! "unit" = Some unit
             ∧ z_size = default VNone (md !! "spacing")
  else tags page !! "ResolutionUnit" = Some unit ∧ z_size = VNone.


(** A dimension letter that is not a placeholder. *)
Definition known (d : string) : Prop := d ∉ UNKNOWN_DIM_CHARS.

(** Two states that differ in list objects only: same files, logs and
    reader. *)
Definition same_but_heap (s s' : State) : Prop :=
  files s' = files s ∧ io_log s' = io_log s ∧ messages s' = messages s
  ∧ self s' = self s.

(** What [_create_dask_array] returns for reader [r] once its list of
    chunk dimensions has been normalized to [current]. *)
Definition create_result (tiff : TiffFile) (dims_list : list string)
    (r : Reader) (current : list string) : result DaskArray :=
  match series tiff !! _current_scene_index r with
  | None => raise IndexError
  | Some scene =>
      if negb (length (shape scene) =? String.length (join dims_list))%nat
      then raise ConflictingArgumentsError
      else
        plan ← chunk_plan (join dims_list) (shape scene) current;
        da_transpose
          (da_block (_path r) (_current_scene_index r) (dtype scene) plan)
          (transpose_indices plan)
  end.

(** The blocked order: the dimensions that are not chunked, then the
    chunked ones, each group in the original order. *)
Definition blocked_order (dims : list string) (cd : list string) : list string :=
  filter (λ d, d ∉ cd) dims ++ filter (λ d, d ∈ cd) dims.

(** The position of [x] in [l], 0 when it is not there. *)
Definition position (l : list string) (x : string) : nat :=
  default 0%nat (list_index l x).

(* ===================================================================== *)
(** ** Example files and states *)
(* ===================================================================== *)

Definition example_scene_of (sh : list nat) (ax : string)
    (page_tags : list (string * pyval)) : Scene :=
  {| shape := sh; axes := ax; dtype := "uint16";
     pages := [ {| tags := list_to_map page_tags |} ];
     data := λ ix, foldl (λ a i, 1000 * a + Z.of_nat i) 0 ix |}.

Definition example_scene (page_tags : list (string * pyval)) : Scene :=
  example_scene_of [512; 512]%nat "YX" page_tags.

Definition example_tiff (page_tags : list (string * pyval)) : TiffFile :=
  {| series := [example_scene page_tags]; is_imagej := false;
     imagej_metadata := None |}.

Definition example_imagej (page_tags md : list (string * pyval)) : TiffFile :=
  {| series := [example_scene page_tags]; is_imagej := true;
     imagej_metadata := Some (list_to_map md) |}.

(** Four pixels per resolution unit on both axes. *)
Definition four_per_unit : list (string * pyval) :=
  [ ("XResolution", VTuple [VInt 4; VInt 1]);
    ("YResolution", VTuple [VInt 4; VInt 1]) ].

(** Four pixels per unit along X, two along Y. *)
Definition four_by_two : list (string * pyval) :=
  [ ("XResolution", VTuple [VInt 4; VInt 1]);
    ("YResolution", VTuple [VInt 2; VInt 1]) ].

(** A state with one file, one list object and a reader on that file. *)
Definition example_state (path : string) (f : File)
    (chunk_dims_list : list string) : State :=
  {| files := {[ path := f ]};
     heap := λ l, if decide (l = 0%nat) then chunk_dims_list else [];
     next_loc := 1%nat; io_log := []; messages := [];
     self := set_path path new_Reader |}.

(** A file with two scenes, and one with a single five-dimensional
    scene. *)
Definition two_scene_tiff : TiffFile :=
  {| series := [ example_scene_of [3; 512; 512]%nat "QYX" [];
                 example_scene_of [512; 512]%nat "YX" [] ];
     is_imagej := false; imagej_metadata := None |}.

Definition stack_tiff (ax : string) (sh : list nat) : TiffFile :=
  {| series := [ example_scene_of sh ax [] ];
     is_imagej := false; imagej_metadata := None |}.

(** The default rule of the surrounding ecosystem, for the examples:
    the last letters of ["TCZYX"]. *)
Definition guess_from_TCZYX : BaseReader :=
  {| _guess_dim_order := λ sh, join (drop (5 - length sh) (chars "TCZYX")) |}.

(* ===================================================================== *)
(** ** utils.py: channel identifiers *)
(* ===================================================================== *)

(** [s.replace(old, new)] for a non-empty [old]: the occurrences of
    [old] are replaced from left to right, without overlap. [skip]
    counts the characters of a match that are still to be passed
    over. *)
Fixpoint replace_from (old new s : string) (skip : nat) : string :=
  match s with
  | EmptyString => EmptyString
  | String c s' =>
      match skip with
      | S k => replace_from old new s' k
      | O =>
          if String.prefix old s
          then String.append new
                 (replace_from old new s' (String.length old - 1))
          else String c (replace_from old new s' 0)
      end
  end.

Definition str_replace (old new s : string) : string :=
  replace_from old new s 0.

(** An identifier given as a [str] or as an [int], and the way an
    f-string shows it. *)
Inductive id_arg : Type :=
| IdStr (s : string)
| IdInt (i : nat).

Definition format_id (a : id_arg) : string :=
  match a with
  | IdStr s => s
  | IdInt i => str_of_nat i
  end.

Definition generate_ome_channel_id (image_id : string) (channel_id : id_arg)
  : string :=
  let image_index := str_replace "Image:" EmptyString image_id in
  String.append "Channel:"
    (String.append image_index (String.append ":" (format_id channel_id))).

(* ===================================================================== *)
(** ** Reader: channel names and coordinates *)
(* ===================================================================== *)

(** Modelled from the spec: [DimensionNames.Channel] of bioio_base, the
    letter of the channel axis. *)
Definition Channel : string := "C".

(** [len(c)] and [isinstance(c, str)] on an element of [channel_names]. *)
Definition item_len (c : channel_item) : nat :=
  match c with
  | ChanName s => String.length s
  | ChanList l => length l
  end.

Definition is_name (c : channel_item) : bool :=
  match c with
  | ChanName _ => true
  | ChanList _ => false
  end.

Definition names_of (l : list channel_item) : list string :=
  omap (λ c, match c with ChanName s => Some s | ChanList _ => None end) l.

(** [l.index(x)] with its [ValueError]. *)
Definition list_index_or_raise (l : list string) (x : string) : result nat :=
  match list_index l x with
  | Some i => ok i
  | None => raise ValueError
  end.

(** The channel names of the current scene: [None] when none were
    given (or the list mixes names and lists), the entry of the scene
    when lists were given per scene, the whole list when names were
    given. *)
Definition _get_channel_names_for_scene (image_shape : list nat)
    (dims : list string) : M (option channel_item) :=
  self ← get_self;
  match _channel_names self with
  | None => mret None
  | Some names =>
      first ← lift (list_get names 0);
      selected ←
        match first with
        | ChanList _ =>
            scene_channels ← lift (list_get names (_current_scene_index self));
            mret (Some scene_channels)
        | ChanName _ =>
            if forallb is_name names
            then mret (Some (ChanList (names_of names)))
            else mret None
        end;
      match selected with
      | None => mret None
      | Some scene_channels =>
          if negb (py_in Channel dims)
          then throw ConflictingArgumentsError
          else
            c_index ← lift (list_index_or_raise dims Channel);
            size ← lift (list_get image_shape c_index);
            if negb (item_len scene_channels =? size)%nat
            then throw ConflictingArgumentsError
            else mret (Some scene_channels)
      end
  end.

Definition _get_coords (dims : list string) (shape : list nat)
    (scene_index : nat) (channel_names : option channel_item)
  : result (gmap string channel_item) :=
  match channel_names with
  | None =>
      let image_id := generate_ome_image_id scene_index in
      if py_in Channel dims
      then
        c_index ← list_index_or_raise dims Channel;
        size ← list_get shape c_index;
        ok {[ Channel :=
                ChanList ((λ i, generate_ome_channel_id image_id (IdInt i))
                          <$> seq 0 size) ]}
      else ok ∅
  | Some names => ok {[ Channel := names ]}
  end.

(* ===================================================================== *)
(** ** Further specification-level definitions *)
(* ===================================================================== *)

(** The number of elements of an array of the given shape. *)
Definition shape_size (shape : list nat) : nat := foldr Nat.mul 1%nat shape.

(** The labels of a list that are not placeholders. *)
Definition known_labels (l : list string) : list string := filter known l.

(** The index tuple of a lazy block: the indices of the non-chunked
    axes, then a full slice for every chunked axis. *)
Definition block_selector (plan : ChunkPlan) (np_index : list nat)
  : list index_sel :=
  (Idx <$> take (length (non_chunk_shape plan)) np_index)
  ++ replicate (length (chunk_shape plan)) SliceAll.

(** The index into the scene of the element a lazy block holds at
    [block_index]: along the axis labelled [d] it is the entry of the
    blocked index (the indices of the block, then [block_index]) at the
    place of [d] in the blocked order. *)
Definition scene_index_of (dims blocked : list string)
    (np_index block_index : list nat) : list nat :=
  (λ d, default 0%nat ((np_index ++ block_index) !! position blocked d))
  <$> dims.

(** What one round of the merge puts at the place of [d]. *)
Definition merged_from (meta guessed : string) (d o : string) : Prop :=
  (known d → o = d)
  ∧ (¬ known d → o = d ∨ (o ∈ chars guessed ∧ o ∉ chars meta)).

(** Whether [__init__] has to count the scenes of the file. *)
Definition is_dim_list (dim_order : dim_order_arg) : bool :=
  match dim_order with DimList _ => true | _ => false end.

Definition is_nested (channel_names : option (list channel_item)) : bool :=
  match channel_names with Some (ChanList _ :: _) => true | _ => false end.

(** The counts [__init__] checks against the number of scenes. *)
Definition dim_order_fits (dim_order : dim_order_arg) (n : nat) : bool :=
  match dim_order with DimList l => (length l =? n)%nat | _ => true end.

Definition channel_names_fit (channel_names : option (list channel_item))
    (n : nat) : bool :=
  match channel_names with
  | Some (ChanList c :: rest) => (length (ChanList c :: rest) =? n)%nat
  | _ => true
  end.

(** The identifiers of the scenes of a file. *)
Definition scene_ids (tiff : TiffFile) : list string :=
  generate_ome_image_id <$> seq 0 (length (series tiff)).

(** An index that lies within a shape. *)
Definition in_bounds (ix shape : list nat) : Prop :=
  Forall2 (λ i n, (i < n)%nat) ix shape.

(** The identifier of channel [i] of scene [k], as the docstring of
    [generate_ome_channel_id] writes it: "Channel:k:i". *)
Definition channel_label (k i : nat) : string :=
  String.append "Channel:"
    (String.append (str_of_nat k) (String.append ":" (str_of_nat i))).

(** The characters [str] writes a non-negative [int] with. *)
Definition DIGITS : list string :=
  ["0"; "1"; "2"; "3"; "4"; "5"; "6"; "7"; "8"; "9"].

(** A state whose reader was given channel names. *)
Definition with_channel_names (names : list channel_item) (s : State)
  : State :=
  with_self (set_channel_names (Some names) (self s)) s.

(* ===================================================================== *)
(** * Proofs *)
(* ===================================================================== *)

#[local] Arguments py_mul : simpl never.
#[local] Arguments py_truediv : simpl never.
#[local] Set Warnings "-clear-no-such-hyp".

(** ** Strings and lists *)

Lemma join_chars (s : string) : join (chars s) = s.
Proof. induction s as [|c s IH]; simpl; [done | by rewrite IH]. Qed.

Lemma length_chars (s : string) : length (chars s) = String.length s.
Proof. induction s as [|c s IH]; simpl; [done | by rewrite IH]. Qed.

(** A list of one-letter labels is the list of characters of its
    joined string. *)
Lemma chars_join_letters (l : list string) :
  Forall (λ d, String.length d = 1%nat) l → chars (join l) = l.
Proof.
  induction 1 as [|d l Hd _ IH]; simpl; [done |].
  destruct d as [|c [|c' d]]; simpl in *; try discriminate.
  f_equal. exact IH.
Qed.

Lemma py_in_true (x : string) (l : list string) : py_in x l = true ↔ x ∈ l.
Proof. unfold py_in. by rewrite bool_decide_eq_true. Qed.

Lemma py_in_false (x : string) (l : list string) : py_in x l = false ↔ x ∉ l.
Proof. unfold py_in. by rewrite bool_decide_eq_false. Qed.

Lemma list_index_Some (l : list string) (x : string) (i : nat) :
  list_index l x = Some i → l !! i = Some x.
Proof.
  revert i. induction l as [|y l IH]; intros i; simpl; [done |].
  case_decide as Hy.
  - intros [= <-]. by subst.
  - destruct (list_index l x) as [j|] eqn:Hj; simpl; [|done].
    intros [= <-]. by apply IH.
Qed.

Lemma list_index_elem_of (l : list string) (x : string) :
  x ∈ l → is_Some (list_index l x).
Proof.
  induction 1 as [x l | x y l _ IH]; simpl.
  - rewrite decide_True by done. eauto.
  - case_decide; [eauto |]. destruct IH as [j ->]. simpl. eauto.
Qed.

Lemma list_index_NoDup (l : list string) (x : string) (i : nat) :
  NoDup l → l !! i = Some x → list_index l x = Some i.
Proof.
  intros Hnd. revert i. induction Hnd as [|y l Hy _ IH]; intros i; [done |].
  destruct i as [|i]; simpl.
  - intros [= ->]. by rewrite decide_True.
  - intros Hi. rewrite decide_False.
    + by rewrite (IH i Hi).
    + intros ->. apply Hy. by eapply list_elem_of_lookup_2.
Qed.

(** ** Dimension inference *)

Lemma all_known_Forall (s : string) :
  all_known s = true ↔ Forall known (chars s).
Proof.
  unfold all_known, known. rewrite forallb_forall, Forall_forall.
  split; intros H x Hx.
  - apply list_elem_of_In in Hx. specialize (H x Hx).
    apply negb_true_iff in H. by apply py_in_false.
  - apply negb_true_iff, py_in_false. apply H. by apply list_elem_of_In.
Qed.

Lemma merge_known_fold (meta guessed : string) (l acc : list string) :
  Forall known l →
  fold_left (merge_step meta guessed) l acc = acc ++ l.
Proof.
  intros Hl. revert acc. induction Hl as [|d l Hd _ IH]; intros acc; simpl.
  - by rewrite app_nil_r.
  - rewrite IH. unfold merge_step.
    apply py_in_false in Hd. rewrite Hd. simpl.
    by rewrite <- app_assoc.
Qed.

Lemma merge_known (meta guessed : string) :
  Forall known (chars meta) → _merge_dim_guesses meta guessed = meta.
Proof.
  intros H. unfold _merge_dim_guesses.
  rewrite merge_known_fold by done. simpl. apply join_chars.
Qed.

Lemma guess_run `{BaseReader} (tiff : TiffFile) (scene : Scene) (s : State) :
  series tiff !! _current_scene_index (self s) = Some scene →
  _guess_tiff_dim_order tiff s =
  (s, inr (if all_known (axes scene) then chars (axes scene)
           else chars (_merge_dim_guesses (axes scene)
                         (_guess_dim_order (shape scene))))).
Proof.
  intros Hs. unfold _guess_tiff_dim_order, mbind, M_bind, get_self, lift, list_get.
  simpl. rewrite Hs. simpl. by destruct (all_known (axes scene)).
Qed.

(** C3: for every axis hint without the placeholder characters "Q" and
    "I", dimension inference returns the hint unchanged, one label per
    position of the hint (and the merge alone returns it unchanged too,
    whatever the guess); and inference is idempotent on any
    placeholder-free output: run again on a scene whose hint is that
    output, it returns the same output. *)
Theorem guess_known_hint_unchanged `{BaseReader}
    (tiff : TiffFile) (scene : Scene) (s : State) :
  series tiff !! _current_scene_index (self s) = Some scene →
  ∃ out,
    _guess_tiff_dim_order tiff s = (s, inr out)
    ∧ (Forall known (chars (axes scene)) →
       out = chars (axes scene)
       ∧ join out = axes scene
       ∧ length out = String.length (axes scene)
       ∧ ∀ guessed, _merge_dim_guesses (axes scene) guessed = axes scene)
    ∧ (Forall known out →
       ∀ tiff' scene',
         series tiff' !! _current_scene_index (self s) = Some scene' →
         axes scene' = join out →
         _guess_tiff_dim_order tiff' s = (s, inr out)).
Proof.
  intros Hs. rewrite (guess_run _ _ _ Hs).
  eexists. split; [reflexivity |]. split.
  - intros Hk. rewrite (proj2 (all_known_Forall _) Hk).
    repeat split.
    + apply join_chars.
    + apply length_chars.
    + intros g. by apply merge_known.
  - intros Hout tiff' scene' Hs' Hax.
    rewrite (guess_run _ _ _ Hs'), Hax.
    destruct (all_known (axes scene)); rewrite join_chars in *;
      by rewrite (proj2 (all_known_Forall _) Hout).
Qed.

Lemma first_free_skip (pre post best meta : list string) (x : string) :
  Forall (λ g, g ∈ best) pre → x ∉ best → x ∉ meta →
  first_free_guess (pre ++ x :: post) best meta = Some x.
Proof.
  intros Hpre Hb Hm. induction Hpre as [|g pre Hg _ IH]; simpl.
  - apply py_in_false in Hb, Hm. by rewrite Hb, Hm.
  - apply py_in_true in Hg. by rewrite Hg.
Qed.

Lemma first_free_next (G meta : list string) (i : nat) (x : string) :
  NoDup G → Forall (λ g, g ∉ meta) G → G !! i = Some x →
  first_free_guess G (take i G) meta = Some x.
Proof.
  intros Hnd Hm Hi.
  rewrite <- (take_drop_middle G i x Hi) at 1.
  apply first_free_skip.
  - apply Forall_forall. auto.
  - intros Hin. apply list_elem_of_lookup in Hin as [j Hj].
    apply lookup_take_Some in Hj as [Hj Hlt].
    pose proof (NoDup_lookup _ _ _ _ Hnd Hj Hi). lia.
  - rewrite Forall_forall in Hm. apply Hm. by eapply list_elem_of_lookup_2.
Qed.

Lemma merge_placeholder_fold (meta guessed : string) (l : list string) (i : nat) :
  NoDup (chars guessed) →
  Forall (λ g, g ∉ chars meta) (chars guessed) →
  Forall (λ d, d ∈ UNKNOWN_DIM_CHARS) l →
  (i + length l ≤ length (chars guessed))%nat →
  fold_left (merge_step meta guessed) l (take i (chars guessed))
  = take (i + length l) (chars guessed).
Proof.
  intros Hnd Hm Hl. revert i.
  induction Hl as [|d l Hd _ IH]; intros i Hlen; simpl in *.
  - by rewrite Nat.add_0_r.
  - destruct (lookup_lt_is_Some_2 (chars guessed) i) as [x Hx]; [lia |].
    unfold merge_step at 2. apply py_in_true in Hd. rewrite Hd. simpl.
    rewrite (first_free_next _ _ _ _ Hnd Hm Hx).
    rewrite <- (take_S_r _ _ _ Hx).
    rewrite IH by lia. f_equal. lia.
Qed.

(** C4: for every shape and every axis hint made of placeholder
    characters only, dimension inference returns a permutation of the
    shape-only guess of the same length, without duplicate labels,
    provided the guess itself has distinct labels, none of them a
    placeholder. *)
Theorem guess_all_placeholders `{BaseReader}
    (tiff : TiffFile) (scene : Scene) (s : State) :
  series tiff !! _current_scene_index (self s) = Some scene →
  Forall (λ d, d ∈ UNKNOWN_DIM_CHARS) (chars (axes scene)) →
  length (chars (_guess_dim_order (shape scene))) = length (chars (axes scene)) →
  NoDup (chars (_guess_dim_order (shape scene))) →
  Forall known (chars (_guess_dim_order (shape scene))) →
  ∃ out,
    _guess_tiff_dim_order tiff s = (s, inr out)
    ∧ out ≡ₚ chars (_guess_dim_order (shape scene))
    ∧ NoDup out
    ∧ length out = length (chars (axes scene)).
Proof.
  intros Hs Hq Hlen Hnd Hk. rewrite (guess_run _ _ _ Hs).
  set (g := _guess_dim_order (shape scene)) in *.
  assert (Hout : (if all_known (axes scene) then chars (axes scene)
                  else chars (_merge_dim_guesses (axes scene) g)) = chars g).
  { destruct (all_known (axes scene)) eqn:Hall.
    - apply all_known_Forall in Hall.
      destruct (chars (axes scene)) as [|d l] eqn:Hc.
      + simpl in Hlen. by destruct (chars g).
      + inversion Hall; inversion Hq; subst. unfold known in *. done.
    - unfold _merge_dim_guesses.
      assert (Hm : Forall (λ x, x ∉ chars (axes scene)) (chars g)).
      { apply Forall_forall. intros x Hx Hin.
        rewrite Forall_forall in Hq, Hk. by apply (Hk x Hx), Hq. }
      pose proof (merge_placeholder_fold (axes scene) g _ 0 Hnd Hm Hq) as Hf.
      rewrite take_0 in Hf. simpl in Hf. rewrite Hf by lia.
      rewrite <- Hlen, firstn_all. by rewrite join_chars. }
  rewrite Hout. eexists. split; [reflexivity |]. by repeat split.
Qed.

(** ** Pixel sizes *)

Lemma get_pixel_size_eq (tiff : TiffFile) (scene : Scene) (page : TiffPage)
    (idx : nat) (unit z_size xn xd yn yd : pyval) :
  series tiff !! idx = Some scene →
  pages scene !! 0%nat = Some page →
  unit_source tiff page unit z_size →
  tags page !! "XResolution" = Some (VTuple [xn; xd]) →
  tags page !! "YResolution" = Some (VTuple [yn; yd]) →
  _get_pixel_size (Tiff tiff) idx
  = (let scalar := items_get _NAME_TO_MICRONS unit (VInt 1) in
     x_size ← py_mul scalar xd ≫= (λ v, py_truediv v xn);
     y_size ← py_mul scalar yd ≫= (λ v, py_truediv v yn);
     z_scaled ← match z_size with
                | VNone => ok VNone
                | _ => py_mul z_size scalar
                end;
     ok (z_scaled, y_size, x_size)).
Proof.
  intros Hs Hp Hu Hx Hy.
  unfold _get_pixel_size, open_tiff, list_get, dict_get. simpl.
  rewrite Hs. simpl. rewrite Hp. simpl.
  unfold unit_source in Hu.
  destruct (is_imagej tiff).
  - destruct Hu as (md & -> & Hunit & ->). simpl. rewrite Hunit. simpl.
    rewrite Hx. simpl. by rewrite Hy.
  - destruct Hu as [Hunit ->]. rewrite Hunit. simpl.
    rewrite Hx. simpl. by rewrite Hy.
Qed.

Lemma py_truediv_float (a b v : pyval) :
  py_truediv a b = inr v → ∃ f, v = VFloat f.
Proof.
  unfold py_truediv.
  destruct a as [| |x|f|], b as [| |y|g|]; try discriminate.
  - destruct (int_truediv x y); simpl; [discriminate |]. intros [= <-]. eauto.
  - destruct (float_of_Z x); simpl; [discriminate |].
    destruct (PrimFloat.eqb g 0); [discriminate |]. intros [= <-]. eauto.
  - destruct (float_of_Z y); simpl; [discriminate |].
    destruct (PrimFloat.eqb _ 0); [discriminate |]. intros [= <-]. eauto.
  - destruct (PrimFloat.eqb g 0); [discriminate |]. intros [= <-]. eauto.
Qed.

Lemma scaled_size_float (scalar d n v : pyval) :
  (py_mul scalar d ≫= λ w, py_truediv w n) = inr v → ∃ f, v = VFloat f.
Proof.
  destruct (py_mul scalar d) as [e|w]; simpl; [discriminate |].
  apply py_truediv_float.
Qed.



(** C6, amended: for every scene whose first page carries XResolution
    and YResolution tags holding fractions (n, d), and whose unit token
    is there to be read (the ResolutionUnit tag of a file that is not
    ImageJ, the "unit" entry of the metadata of an ImageJ file),
    [_get_pixel_size] returns for X and Y the value of
    [scalar * d / n], computed in that order with the scalar the unit
    table gives for the token (1 by default), whenever that arithmetic is
    defined (no zero numerator); and a Z spacing present in the ImageJ
    metadata is multiplied by the same scalar, while without one the Z
    size is [None]. *)
Theorem pixel_size_formula (tiff : TiffFile) (scene : Scene) (page : TiffPage)
    (idx : nat) (unit z_size : pyval) (xn xd yn yd : Z)
    (x_size y_size z_scaled : pyval) :
  series tiff !! idx = Some scene →
  pages scene !! 0%nat = Some page →
  tags page !! "XResolution" = Some (VTuple [VInt xn; VInt xd]) →
  tags page !! "YResolution" = Some (VTuple [VInt yn; VInt yd]) →
  unit_source tiff page unit z_size →
  let scalar := items_get _NAME_TO_MICRONS unit (VInt 1) in
  (py_mul scalar (VInt xd) ≫= λ v, py_truediv v (VInt xn)) = inr x_size →
  (py_mul scalar (VInt yd) ≫= λ v, py_truediv v (VInt yn)) = inr y_size →
  match z_size with
  | VNone => z_scaled = VNone
  | _ => py_mul z_size scalar = inr z_scaled
  end →
  _get_pixel_size (Tiff tiff) idx = inr (z_scaled, y_size, x_size)
  ∧ (∃ x y, x_size = VFloat x ∧ y_size = VFloat y)
  ∧ (is_imagej tiff = false → z_scaled = VNone).
Proof.
  intros Hs Hp Hx Hy Hu scalar Hxs Hys Hz.
  split; [|split].
  - rewrite (get_pixel_size_eq _ _ _ _ _ _ _ _ _ _ Hs Hp Hu Hx Hy).
    fold scalar. simpl. rewrite Hxs. simpl. rewrite Hys. simpl.
    destruct z_size; simpl; first [by subst | by rewrite Hz].
  - destruct (scaled_size_float _ _ _ _ Hxs) as [x ->].
    destruct (scaled_size_float _ _ _ _ Hys) as [y ->]. eauto.
  - intros Hij. unfold unit_source in Hu. rewrite Hij in Hu.
    destruct Hu as [_ ->]. done.
Qed.

Lemma pixel_size_formula_witness :
  _get_pixel_size
    (Tiff (example_tiff (("ResolutionUnit", RESUNIT.CENTIMETER) :: four_per_unit))) 0
  = inr (VNone, VFloat (1e4 / 4), VFloat (1e4 / 4))
  ∧ _get_pixel_size
      (Tiff (example_imagej four_per_unit
               [("unit", VStr "mm"); ("spacing", VFloat 0.5)])) 0
    = inr (VFloat (0.5 * 1e3), VFloat (1e3 / 4), VFloat (1e3 / 4)).
Proof.
  split.
  - refine (proj1 (pixel_size_formula
             (example_tiff (("ResolutionUnit", RESUNIT.CENTIMETER) :: four_per_unit))
             (example_scene (("ResolutionUnit", RESUNIT.CENTIMETER) :: four_per_unit))
             {| tags := list_to_map
                          (("ResolutionUnit", RESUNIT.CENTIMETER) :: four_per_unit) |}
             0 RESUNIT.CENTIMETER VNone 4 1 4 1
             (VFloat (1e4 / 4)) (VFloat (1e4 / 4)) VNone _ _ _ _ _ _ _ _));
      try reflexivity.
    split; reflexivity.
  - refine (proj1 (pixel_size_formula
             (example_imagej four_per_unit
                [("unit", VStr "mm"); ("spacing", VFloat 0.5)])
             (example_scene four_per_unit)
             {| tags := list_to_map four_per_unit |}
             0 (VStr "mm") (VFloat 0.5) 4 1 4 1
             (VFloat (1e3 / 4)) (VFloat (1e3 / 4)) (VFloat (0.5 * 1e3))
             _ _ _ _ _ _ _ _));
      try reflexivity.
    eexists. repeat split; reflexivity.
Defined.

Lemma pixel_size_formula_counterexample :
  _get_pixel_size (Tiff (example_tiff four_per_unit)) 0
  = inl (KeyError "ResolutionUnit")
  ∧ _get_pixel_size
      (Tiff (example_tiff
               [ ("ResolutionUnit", RESUNIT.CENTIMETER);
                 ("XResolution", VTuple [VInt 0; VInt 1]);
                 ("YResolution", VTuple [VInt 4; VInt 1]) ])) 0
    = inl ZeroDivisionError.
Proof. split; reflexivity. Qed.




(** C7: whenever pixel-size extraction raises an exception, whichever it
    is, the [physical_pixel_sizes] property does not propagate it: it
    emits one warning carrying the exception and returns
    [(None, None, None)], which it also keeps for later accesses. *)
Theorem physical_pixel_sizes_absorbs (s : State) (f : File) (e : exn) :
  _physical_pixel_sizes (self s) = None →
  files s !! _path (self s) = Some f →
  _get_pixel_size f (_current_scene_index (self s)) = inl e →
  ∃ s',
    physical_pixel_sizes s = (s', inr (VNone, VNone, VNone))
    ∧ messages s' = messages s ++ [WarnPixelSize e]
    ∧ _physical_pixel_sizes (self s') = Some (VNone, VNone, VNone)
    ∧ physical_pixel_sizes s' = (s', inr (VNone, VNone, VNone)).
Proof.
  intros Hc Hf He. eexists.
  unfold physical_pixel_sizes at 1.
  unfold mbind, M_bind, get_self, fs_open, try_except, lift, emit,
    modify_self, mret, M_ret.
  simpl. rewrite Hc, Hf. simpl. rewrite He. simpl.
  split; [reflexivity |]. split; [reflexivity |]. split; [reflexivity |].
  reflexivity.
Qed.

Lemma physical_pixel_sizes_absorbs_witness :
  ∃ s',
    physical_pixel_sizes (example_state "a.tif" (Tiff (example_tiff four_by_two)) ["Z"; "Y"; "X"])
    = (s', inr (VNone, VNone, VNone))
    ∧ messages s' = [WarnPixelSize (KeyError "ResolutionUnit")].
Proof.
  destruct (physical_pixel_sizes_absorbs
              (example_state "a.tif" (Tiff (example_tiff four_by_two)) ["Z"; "Y"; "X"])
              (Tiff (example_tiff four_by_two)) (KeyError "ResolutionUnit")
              eq_refl eq_refl eq_refl) as (s' & Hrun & Hmsg & _).
  exists s'. split; [exact Hrun | exact Hmsg].
Defined.


(** ** The chunk dimensions of the reader *)

Lemma add_required_run (req : list string) (s : State) :
  ∃ s1,
    for_each req add_if_missing s = (s1, inr tt)
    ∧ same_but_heap s s1
    ∧ next_loc s1 = next_loc s
    ∧ heap s1 (chunk_dims (self s))
      = fold_left (λ acc dim, if py_in dim acc then acc else acc ++ [dim])
                  req (heap s (chunk_dims (self s)))
    ∧ ∀ l, l ≠ chunk_dims (self s) → heap s1 l = heap s l.
Proof.
  revert s. induction req as [|dim req IH]; intros s.
  - exists s. by repeat split.
  - simpl.
    set (s0 := (add_if_missing dim s).1).
    assert (Hstep : add_if_missing dim s = (s0, inr tt)
              ∧ same_but_heap s s0 ∧ next_loc s0 = next_loc s
              ∧ heap s0 (chunk_dims (self s))
                = (if py_in dim (heap s (chunk_dims (self s)))
                   then heap s (chunk_dims (self s))
                   else heap s (chunk_dims (self s)) ++ [dim])
              ∧ ∀ l, l ≠ chunk_dims (self s) → heap s0 l = heap s l).
    { subst s0. unfold add_if_missing, mbind, M_bind, get_self, list_read,
        list_append, mret, M_ret. simpl.
      destruct (py_in dim (heap s (chunk_dims (self s)))); simpl.
      - by repeat split.
      - repeat split; [by rewrite decide_True |].
        intros l Hl. by rewrite decide_False. }
    destruct Hstep as (Hrun & (Hf & Hio & Hm & Hself) & Hn & Hh & Hother).
    destruct (IH s0) as (s1 & Hrun1 & (Hf1 & Hio1 & Hm1 & Hself1) & Hn1 & Hh1 & Hother1).
    exists s1. unfold mbind, M_bind. rewrite Hrun, Hrun1.
    rewrite Hself in *.
    repeat split; try congruence.
    + intros l Hl. rewrite Hother1, Hother; done.
Qed.

Lemma create_dask_array_run (tiff : TiffFile) (dims_list : list string)
    (s : State) :
  ∃ s',
    _create_dask_array tiff dims_list s
    = (s', create_result tiff dims_list (self s)
             (normalized_chunk_dims (heap s (chunk_dims (self s)))))
    ∧ self s' = set_chunk_dims (next_loc s) (self s)
    ∧ heap s' (next_loc s) = normalized_chunk_dims (heap s (chunk_dims (self s)))
    ∧ (chunk_dims (self s) ≠ next_loc s →
       heap s' (chunk_dims (self s)) = with_required (heap s (chunk_dims (self s))))
    ∧ (∀ l, l ≠ chunk_dims (self s) → l ≠ next_loc s → heap s' l = heap s l)
    ∧ next_loc s' = S (next_loc s)
    ∧ files s' = files s ∧ io_log s' = io_log s ∧ messages s' = messages s.
Proof.
  destruct (add_required_run REQUIRED_CHUNK_DIMS s)
    as (s1 & Hrun & (Hf & Hio & Hm & Hself) & Hn & Hh & Hother).
  unfold _create_dask_array, mbind at 1, M_bind at 1. rewrite Hrun.
  unfold mbind, M_bind, get_self, list_read, list_new, modify_self, lift,
    throw, mret, M_ret, list_get, create_result.
  simpl. rewrite Hself, Hn, Hh.
  fold (with_required (heap s (chunk_dims (self s)))).
  fold (normalized_chunk_dims (heap s (chunk_dims (self s)))).
  eexists. split.
  - destruct (series tiff !! _current_scene_index (self s)) as [scene|]; simpl;
      [|reflexivity].
    destruct (negb _); simpl; [reflexivity |].
    rewrite decide_True by done.
    destruct (chunk_plan _ _ _); reflexivity.
  - simpl. rewrite decide_True by done.
    repeat split; try done.
    + intros Hne. rewrite decide_False by done. by rewrite Hh.
    + intros l Hl Hl'. rewrite decide_False by done. by apply Hother.
Qed.

(** ** The partition *)

Lemma position_lookup (l : list string) (x : string) :
  x ∈ l → l !! position l x = Some x.
Proof.
  intros Hx. unfold position.
  destruct (list_index_elem_of l x Hx) as [i Hi]. rewrite Hi. simpl.
  by apply list_index_Some.
Qed.

Lemma position_NoDup (l : list string) (x : string) (i : nat) :
  NoDup l → l !! i = Some x → position l x = i.
Proof.
  intros Hnd Hi. unfold position. by rewrite (list_index_NoDup l x i).
Qed.

Lemma position_lt (l : list string) (x : string) :
  x ∈ l → (position l x < length l)%nat.
Proof. intros Hx. eapply lookup_lt_Some. by apply position_lookup. Qed.

Lemma partition_fold (cd : list string) (l : list (string * nat)) (acc : Partition) :
  fold_left (partition_step cd) l acc =
  {| p_non_chunk_dim_order :=
       p_non_chunk_dim_order acc ++ (filter (λ ds, ds.1 ∉ cd) l).*1;
     p_non_chunk_shape :=
       p_non_chunk_shape acc ++ (filter (λ ds, ds.1 ∉ cd) l).*2;
     p_chunk_dim_order :=
       p_chunk_dim_order acc ++ (filter (λ ds, ds.1 ∈ cd) l).*1;
     p_chunk_shape :=
       p_chunk_shape acc ++ (filter (λ ds, ds.1 ∈ cd) l).*2 |}.
Proof.
  revert acc. induction l as [|[d n] l IH]; intros acc; simpl.
  - destruct acc. simpl. by rewrite !app_nil_r.
  - rewrite IH. unfold py_in. rewrite !filter_cons. simpl.
    case_bool_decide as Hd; repeat case_decide; simpl in *; try done;
      by rewrite <- !app_assoc.
Qed.

Lemma filter_zip_fst {A B} (P : A → Prop) (Q : A * B → Prop)
    `{∀ a, Decision (P a)} `{∀ ab, Decision (Q ab)} (l : list A) (k : list B) :
  (∀ a b, Q (a, b) ↔ P a) →
  length l = length k →
  (filter Q (zip l k)).*1 = filter P l.
Proof.
  intros HPQ. revert k.
  induction l as [|a l IH]; intros [|b k] Hlen; simpl in *; try done.
  rewrite !filter_cons.
  destruct (decide (Q (a, b))) as [Hq|Hq], (decide (P a)) as [Hp|Hp]; simpl.
  - rewrite IH by lia. done.
  - exfalso. by apply Hp, (HPQ a b).
  - exfalso. by apply Hq, (HPQ a b).
  - apply IH. lia.
Qed.

Lemma partition_dims_spec (dims : string) (shape : list nat) (cd : list string) :
  length (chars dims) = length shape →
  let p := partition_dims dims shape cd in
  p_non_chunk_dim_order p = filter (λ d, d ∉ cd) (chars dims)
  ∧ p_chunk_dim_order p = filter (λ d, d ∈ cd) (chars dims)
  ∧ length (p_non_chunk_shape p) = length (p_non_chunk_dim_order p)
  ∧ length (p_chunk_shape p) = length (p_chunk_dim_order p).
Proof.
  intros Hlen p. subst p. unfold partition_dims. rewrite partition_fold.
  cbn [p_non_chunk_dim_order p_non_chunk_shape p_chunk_dim_order
       p_chunk_shape app].
  repeat split.
  - by apply filter_zip_fst.
  - by apply filter_zip_fst.
  - by rewrite !length_fmap.
  - by rewrite !length_fmap.
Qed.

(** ** The transposes *)

Lemma blocked_order_perm (dims cd : list string) :
  blocked_order dims cd ≡ₚ dims.
Proof.
  unfold blocked_order. rewrite Permutation_app_comm.
  apply (filter_app_complement (λ d, d ∈ cd)).
Qed.

Lemma match_map_fold (f : string → Z) (l : list string) (m : gmap string Z)
    (d : string) :
  fold_left (λ m dim, <[dim := f dim]> m) l m !! d
  = if decide (d ∈ l) then Some (f d) else m !! d.
Proof.
  revert m. induction l as [|a l IH]; intros m.
  - destruct (decide (d ∈ [])) as [Hd|]; [by apply elem_of_nil in Hd | done].
  - simpl. rewrite IH. destruct (decide (d ∈ l)) as [Hl|Hl].
    + rewrite decide_True; [done | by right].
    + destruct (decide (a = d)) as [->|Hne].
      * rewrite lookup_insert_eq. rewrite decide_True; [done | by left].
      * rewrite lookup_insert_ne by done.
        rewrite decide_False; [done |]. by intros [?|?]%elem_of_cons.
Qed.

Lemma match_map_lookup (dims d : string) :
  d ∈ chars dims →
  match_map dims !! d = Some (Z.of_nat (position (chars dims) d)).
Proof.
  intros Hd. unfold match_map. rewrite match_map_fold.
  rewrite decide_True by done. f_equal.
  unfold str_find, position.
  by destruct (list_index_elem_of _ _ Hd) as [i ->].
Qed.

Lemma rmap_ok {A B} (f : A → result B) (g : A → B) (l : list A) :
  (∀ x, x ∈ l → f x = inr (g x)) → rmap f l = inr (g <$> l).
Proof.
  induction l as [|a l IH]; intros Hf; simpl; [done |].
  rewrite (Hf a) by left. simpl. rewrite IH; [done |].
  intros x Hx. apply Hf. by right.
Qed.

Lemma fmap_snd_zip {A B C} (g : B → C) (k : list A) (l : list B) :
  (length l ≤ length k)%nat →
  (λ ab, g ab.2) <$> zip k l = g <$> l.
Proof.
  revert k. induction l as [|b l IH]; intros [|a k] Hlen; simpl in *;
    try done; try lia.
  f_equal. apply IH. lia.
Qed.

Lemma chunk_plan_spec (dims : string) (shape : list nat) (cd : list string) :
  length (chars dims) = length shape →
  ∃ plan,
    chunk_plan dims shape cd = inr plan
    ∧ non_chunk_dim_order plan = filter (λ d, d ∉ cd) (chars dims)
    ∧ chunk_dim_order plan = filter (λ d, d ∈ cd) (chars dims)
    ∧ blocked_dim_order plan = blocked_order (chars dims) cd
    ∧ transposer plan
      = (λ d, Z.of_nat (position (chars dims) d)) <$> blocked_order (chars dims) cd
    ∧ transpose_indices plan
      = (λ d, Z.of_nat (position (blocked_order (chars dims) cd) d)) <$> chars dims
    ∧ length (non_chunk_shape plan) = length (non_chunk_dim_order plan)
    ∧ length (chunk_shape plan) = length (chunk_dim_order plan)
    ∧ blocked_shape plan
      = non_chunk_shape plan ++ replicate (length (chunk_shape plan)) 1%nat.
Proof.
  intros Hlen.
  destruct (partition_dims_spec dims shape cd Hlen) as (Hnc & Hc & Hncs & Hcs).
  unfold chunk_plan.
  set (p := partition_dims dims shape cd) in *.
  assert (Hb : p_non_chunk_dim_order p ++ p_chunk_dim_order p
               = blocked_order (chars dims) cd).
  { unfold blocked_order. by rewrite Hnc, Hc. }
  rewrite Hb.
  rewrite (rmap_ok _ (λ d, Z.of_nat (position (chars dims) d))).
  2: { intros d Hd. unfold dict_get. rewrite match_map_lookup; [done |].
       by rewrite <- (blocked_order_perm (chars dims) cd). }
  simpl.
  rewrite (rmap_ok _ (λ id, Z.of_nat (position (blocked_order (chars dims) cd) id.2))).
  2: { intros [i d] Hd%elem_of_zip_r. simpl.
       rewrite <- (blocked_order_perm (chars dims) cd) in Hd.
       unfold position. destruct (list_index_elem_of _ _ Hd) as [j Hj].
       rewrite Hj. simpl.
       destruct (j =? i)%nat eqn:Hji; simpl; [|done].
       apply Nat.eqb_eq in Hji. by subst. }
  simpl. eexists. split; [reflexivity |]. simpl.
  rewrite Hnc, Hc, Hncs, Hcs.
  repeat split; try done.
  apply (fmap_snd_zip (λ d, Z.of_nat (position (blocked_order (chars dims) cd) d))).
  by rewrite length_seq.
  all: by rewrite ?Hnc, ?Hc.
Qed.

Lemma norm_axis_of_nat (n i : nat) :
  (i < n)%nat → norm_axis n (Z.of_nat i) = Some i.
Proof.
  intros Hi. unfold norm_axis.
  destruct (Z.leb_spec 0 (Z.of_nat i)); [|lia].
  destruct (Z.ltb_spec (Z.of_nat i) (Z.of_nat n)); [|lia].
  simpl. by rewrite Nat2Z.id.
Qed.

Lemma np_transpose_nat {A} (ax : list nat) (l r : list A) :
  length ax = length l →
  NoDup ax →
  Forall2 (λ i y, l !! i = Some y) ax r →
  np_transpose (Z.of_nat <$> ax) l = inr r.
Proof.
  intros Hlen Hnd Hr. unfold np_transpose.
  rewrite length_fmap, Hlen, Nat.eqb_refl. simpl.
  rewrite (mapM_fmap_Forall_Some (norm_axis (length l)) Z.of_nat ax).
  - rewrite bool_decide_eq_true_2 by done.
    by rewrite (mapM_Some_2 _ _ _ Hr).
  - clear Hlen Hnd. induction Hr as [|i y ax r Hi _ IH]; constructor; [|done].
    apply norm_axis_of_nat. by eapply lookup_lt_Some.
Qed.

Section transposes.
Context (L cd : list string) (HL : NoDup L).

Let B := blocked_order L cd.
Let F := position L <$> B.
Let R := position B <$> L.

Lemma blocked_NoDup : NoDup B.
Proof. subst B. by rewrite blocked_order_perm. Qed.

Lemma blocked_elem (d : string) : d ∈ B ↔ d ∈ L.
Proof. subst B. by rewrite blocked_order_perm. Qed.

Lemma blocked_length : length B = length L.
Proof. subst B. by rewrite blocked_order_perm. Qed.

Lemma forward_lookup (j : nat) (d : string) :
  B !! j = Some d → F !! j = Some (position L d).
Proof. intros Hj. subst F. by rewrite list_lookup_fmap, Hj. Qed.

Lemma restore_lookup (i : nat) (d : string) :
  L !! i = Some d → R !! i = Some (position B d).
Proof. intros Hi. subst R. by rewrite list_lookup_fmap, Hi. Qed.

Lemma restore_then_forward (i : nat) :
  (i < length L)%nat → ∃ j, R !! i = Some j ∧ F !! j = Some i.
Proof.
  intros Hi. destruct (lookup_lt_is_Some_2 L i Hi) as [d Hd].
  exists (position B d). split; [by apply restore_lookup |].
  assert (Hin : d ∈ B) by (apply blocked_elem; by eapply list_elem_of_lookup_2).
  rewrite (forward_lookup _ d) by by apply position_lookup.
  f_equal. by apply position_NoDup.
Qed.

Lemma forward_then_restore (j : nat) :
  (j < length L)%nat → ∃ i, F !! j = Some i ∧ R !! i = Some j.
Proof.
  intros Hj. rewrite <- blocked_length in Hj.
  destruct (lookup_lt_is_Some_2 B j Hj) as [d Hd].
  exists (position L d). split; [by apply forward_lookup |].
  assert (Hin : d ∈ L) by (apply blocked_elem; by eapply list_elem_of_lookup_2).
  rewrite (restore_lookup _ d) by by apply position_lookup.
  f_equal. apply position_NoDup; [apply blocked_NoDup | done].
Qed.

Lemma forward_NoDup : NoDup F.
Proof.
  subst F. apply NoDup_fmap_2_strong; [|apply blocked_NoDup].
  intros x y Hx%blocked_elem Hy%blocked_elem Hxy.
  apply position_lookup in Hx, Hy. rewrite Hxy in Hx. congruence.
Qed.

Lemma restore_NoDup : NoDup R.
Proof.
  subst R. apply NoDup_fmap_2_strong; [|done].
  intros x y Hx%blocked_elem Hy%blocked_elem Hxy.
  apply position_lookup in Hx, Hy. rewrite Hxy in Hx. congruence.
Qed.

Lemma forward_perm : F ≡ₚ seq 0 (length L).
Proof.
  apply NoDup_Permutation; [apply forward_NoDup | apply NoDup_seq |].
  intros i. rewrite elem_of_seq. split.
  - subst F. intros (d & -> & Hd%blocked_elem)%list_elem_of_fmap.
    pose proof (position_lt _ _ Hd). lia.
  - intros [_ Hi]. destruct (restore_then_forward i) as (j & _ & Hj); [lia |].
    by eapply list_elem_of_lookup_2.
Qed.

Lemma restore_perm : R ≡ₚ seq 0 (length L).
Proof.
  apply NoDup_Permutation; [apply restore_NoDup | apply NoDup_seq |].
  intros j. rewrite elem_of_seq. split.
  - subst R. intros (d & -> & Hd%blocked_elem)%list_elem_of_fmap.
    pose proof (position_lt _ _ Hd). rewrite blocked_length in *. lia.
  - intros [_ Hj]. destruct (forward_then_restore j) as (i & _ & Hi); [lia |].
    by eapply list_elem_of_lookup_2.
Qed.

Lemma forward_transpose_labels :
  np_transpose (Z.of_nat <$> F) L = inr B.
Proof.
  apply np_transpose_nat.
  - subst F. rewrite length_fmap. apply blocked_length.
  - apply forward_NoDup.
  - subst F. apply Forall2_fmap_l, Forall_Forall2_diag, Forall_forall.
    intros d Hd%blocked_elem. by apply position_lookup.
Qed.

Lemma restore_transpose_labels :
  np_transpose (Z.of_nat <$> R) B = inr L.
Proof.
  apply np_transpose_nat.
  - subst R. rewrite length_fmap. by rewrite blocked_length.
  - apply restore_NoDup.
  - subst R. apply Forall2_fmap_l, Forall_Forall2_diag, Forall_forall.
    intros d Hd%blocked_elem. by apply position_lookup.
Qed.

Lemma transpose_round_trip {A} (l : list A) :
  length l = length L →
  ∃ l',
    np_transpose (Z.of_nat <$> F) l = inr l'
    ∧ np_transpose (Z.of_nat <$> R) l' = inr l.
Proof.
  intros Hlen.
  assert (HF : length F = length L).
  { subst F. rewrite length_fmap. apply blocked_length. }
  assert (HR : length R = length L) by (subst R; by rewrite length_fmap).
  destruct (mapM_is_Some_2 (λ i, l !! i) F) as [l' Hl'].
  { apply Forall_forall. intros i Hi. simpl. apply lookup_lt_is_Some.
    rewrite forward_perm in Hi. apply elem_of_seq in Hi. lia. }
  apply mapM_Some in Hl'.
  pose proof (Forall2_length _ _ _ Hl') as Hlen'.
  exists l'. split.
  - apply np_transpose_nat; [congruence | apply forward_NoDup | done].
  - apply np_transpose_nat; [congruence | apply restore_NoDup |].
    apply Forall2_same_length_lookup. split; [congruence |].
    intros i j y Hj Hy.
    destruct (restore_then_forward i) as (j' & Hj' & Hi').
    { apply lookup_lt_Some in Hy. lia. }
    assert (j' = j) as -> by congruence.
    destruct (lookup_lt_is_Some_2 l' j) as [y' Hy'].
    { apply lookup_lt_Some in Hi'. lia. }
    rewrite Hy'. f_equal.
    pose proof (Forall2_lookup_lr _ _ _ _ _ _ Hl' Hi' Hy'). simpl in *. congruence.
Qed.

End transposes.

(** ** Normalizing the chunk dimensions *)

Lemma ascii_upper_idemp (c : ascii) : ascii_upper (ascii_upper c) = ascii_upper c.
Proof. destruct c as [[] [] [] [] [] [] [] []]; reflexivity. Qed.

Lemma str_upper_idemp (s : string) : str_upper (str_upper s) = str_upper s.
Proof.
  induction s as [|c s IH]; simpl; [done |]. by rewrite ascii_upper_idemp, IH.
Qed.

Lemma required_upper (d : string) :
  d ∈ REQUIRED_CHUNK_DIMS → str_upper d = d.
Proof.
  unfold REQUIRED_CHUNK_DIMS. rewrite !elem_of_cons, elem_of_nil.
  intros [-> | [-> | [-> | []]]]; reflexivity.
Qed.

Lemma filter_ext_in {A} (P Q : A → Prop) `{∀ x, Decision (P x)}
    `{∀ x, Decision (Q x)} (l : list A) :
  (∀ x, x ∈ l → P x ↔ Q x) → filter P l = filter Q l.
Proof.
  induction l as [|a l IH]; intros HPQ; [done |].
  rewrite !filter_cons.
  assert (Ha : P a ↔ Q a) by (apply HPQ; left).
  rewrite IH by (intros x Hx; apply HPQ; by right).
  destruct (decide (P a)), (decide (Q a)); tauto.
Qed.

Lemma filter_none {A} (P : A → Prop) `{∀ x, Decision (P x)} (l : list A) :
  (∀ x, x ∈ l → ¬ P x) → filter P l = [].
Proof.
  induction l as [|a l IH]; intros HP; [done |].
  rewrite filter_cons, decide_False by (apply HP; left).
  apply IH. intros x Hx. apply HP. by right.
Qed.

Lemma add_missing_fold (req cd : list string) :
  NoDup req →
  fold_left (λ acc dim, if py_in dim acc then acc else acc ++ [dim]) req cd
  = cd ++ filter (λ d, d ∉ cd) req.
Proof.
  intros Hnd. revert cd. induction Hnd as [|a req Ha _ IH]; intros cd; simpl.
  - by rewrite app_nil_r.
  - rewrite IH, filter_cons. unfold py_in.
    case_bool_decide as Hin.
    + by rewrite decide_False by naive_solver.
    + rewrite decide_True by done. rewrite <- app_assoc. simpl. do 2 f_equal.
      apply filter_ext_in. intros x Hx.
      rewrite elem_of_app, list_elem_of_singleton.
      split; [naive_solver |].
      intros Hc [?| ->]; done.
Qed.

Lemma with_required_eq (cd : list string) :
  with_required cd = cd ++ filter (λ d, d ∉ cd) REQUIRED_CHUNK_DIMS.
Proof.
  apply add_missing_fold. unfold REQUIRED_CHUNK_DIMS.
  repeat (constructor; [set_solver |]). constructor.
Qed.

Lemma with_required_elem (cd : list string) (d : string) :
  d ∈ with_required cd ↔ d ∈ cd ∨ d ∈ REQUIRED_CHUNK_DIMS.
Proof.
  rewrite with_required_eq, elem_of_app, list_elem_of_filter.
  destruct (decide (d ∈ cd)); naive_solver.
Qed.

Lemma with_required_complete (cd : list string) :
  Forall (λ d, d ∈ cd) REQUIRED_CHUNK_DIMS → with_required cd = cd.
Proof.
  intros Hall. rewrite with_required_eq, filter_none; [by rewrite app_nil_r |].
  rewrite Forall_forall in Hall. intros x Hx Hn. by apply Hn, Hall.
Qed.

Lemma normalized_required (cd : list string) (d : string) :
  d ∈ REQUIRED_CHUNK_DIMS → d ∈ normalized_chunk_dims cd.
Proof.
  intros Hd. unfold normalized_chunk_dims.
  rewrite <- (required_upper d Hd). apply list_elem_of_fmap_2.
  apply with_required_elem. by right.
Qed.

Lemma normalized_upper (cd : list string) :
  Forall (λ d, str_upper d = d) (normalized_chunk_dims cd).
Proof.
  unfold normalized_chunk_dims. apply Forall_fmap, Forall_forall.
  intros d _. simpl. apply str_upper_idemp.
Qed.

Lemma normalized_fixed (cd : list string) :
  normalized_chunk_dims cd = cd
  ↔ Forall (λ d, str_upper d = d) cd ∧ Forall (λ d, d ∈ cd) REQUIRED_CHUNK_DIMS.
Proof.
  split.
  - intros Heq. split.
    + rewrite <- Heq at 1. apply normalized_upper.
    + apply Forall_forall. intros d Hd. rewrite <- Heq.
      by apply normalized_required.
  - intros [Hup Hreq]. unfold normalized_chunk_dims.
    rewrite with_required_complete by done.
    rewrite <- (list_fmap_id cd) at 2. apply Forall_fmap_ext_1.
    by eapply Forall_impl.
Qed.

Lemma normalized_idemp (cd : list string) :
  normalized_chunk_dims (normalized_chunk_dims cd) = normalized_chunk_dims cd.
Proof.
  apply normalized_fixed. split; [apply normalized_upper |].
  apply Forall_forall. intros d Hd. by apply normalized_required.
Qed.

(** ** The claims about [_create_dask_array] *)

Lemma np_transpose_repeated {A} (ax : list nat) (l : list A) :
  length ax = length l →
  Forall (λ i, (i < length l)%nat) ax →
  ¬ NoDup ax →
  np_transpose (Z.of_nat <$> ax) l = inl ValueError.
Proof.
  intros Hlen Hlt Hdup. unfold np_transpose.
  rewrite length_fmap, Hlen, Nat.eqb_refl. simpl.
  rewrite (mapM_fmap_Forall_Some (norm_axis (length l)) Z.of_nat ax).
  - by rewrite bool_decide_eq_false_2.
  - eapply Forall_impl; [exact Hlt |]. intros i Hi. by apply norm_axis_of_nat.
Qed.

(** The final transposition of [_create_dask_array]: accepted when the
    labels are pairwise distinct, refused when a label repeats. *)
Lemma da_transpose_plan (path : string) (scene : nat) (dtype : string)
    (dims : string) (shape : list nat) (cd : list string) (plan : ChunkPlan) :
  length (chars dims) = length shape →
  chunk_plan dims shape cd = inr plan →
  da_transpose (da_block path scene dtype plan) (transpose_indices plan)
  = if bool_decide (NoDup (chars dims))
    then inr (assemble path scene dtype plan)
    else inl ValueError.
Proof.
  intros Hlen Hplan.
  destruct (chunk_plan_spec dims shape cd Hlen)
    as (plan' & Hplan' & Hnc & Hc & _ & _ & Hr & Hncs & Hcs & Hbs).
  assert (plan' = plan) as -> by congruence.
  set (L := chars dims) in *. set (B := blocked_order L cd) in *.
  set (R := position B <$> L).
  assert (HR : transpose_indices plan = Z.of_nat <$> R).
  { rewrite Hr. subst R. by rewrite <- list_fmap_compose. }
  assert (Hn : length (blocked_shape plan) = length L).
  { rewrite Hbs, length_app, length_replicate, Hncs, Hcs, Hnc, Hc.
    rewrite <- length_app. change (length (blocked_order L cd) = length L).
    by rewrite blocked_order_perm. }
  assert (HRlen : length R = length L) by (subst R; by rewrite length_fmap).
  assert (Hlt : Forall (λ i, (i < length L)%nat) R).
  { subst R. apply Forall_fmap, Forall_forall. intros d Hd. simpl.
    rewrite <- (blocked_order_perm L cd). apply position_lt.
    by rewrite (blocked_order_perm L cd). }
  unfold da_transpose, da_block, assemble. simpl. rewrite HR, Hn.
  case_bool_decide as Hnd.
  - rewrite (np_transpose_nat R (Z.of_nat <$> seq 0 (length L))
               (Z.of_nat <$> R)); [done | | |].
    + by rewrite length_fmap, length_seq.
    + by apply restore_NoDup.
    + apply Forall2_fmap_r, Forall_Forall2_diag.
      eapply Forall_impl; [exact Hlt |]. intros i Hi. simpl in *.
      by rewrite list_lookup_fmap, lookup_seq_lt.
  - rewrite np_transpose_repeated; [done | | |].
    + by rewrite length_fmap, length_seq.
    + by rewrite length_fmap, length_seq.
    + intros HndR. apply Hnd. subst R. by eapply NoDup_fmap_1.
Qed.

(** The run of [_create_dask_array] on dimensions that fit the shape:
    the plan is built from the chunk dimensions the reader has after
    the call, and the result is the transposition of its blocks. *)
Lemma create_dask_array_plan (tiff : TiffFile) (dims_list : list string)
    (s : State) (scene : Scene) :
  series tiff !! _current_scene_index (self s) = Some scene →
  length (shape scene) = String.length (join dims_list) →
  ∃ s' plan,
    _create_dask_array tiff dims_list s
    = (s', da_transpose
             (da_block (_path (self s)) (_current_scene_index (self s))
                       (dtype scene) plan)
             (transpose_indices plan))
    ∧ chunk_plan (join dims_list) (shape scene)
        (normalized_chunk_dims (heap s (chunk_dims (self s)))) = inr plan
    ∧ heap s' (chunk_dims (self s'))
      = normalized_chunk_dims (heap s (chunk_dims (self s))).
Proof.
  intros Hs Hlen.
  destruct (create_dask_array_run tiff dims_list s)
    as (s' & Hrun & Hself & Hnew & _).
  destruct (chunk_plan_spec (join dims_list) (shape scene)
              (normalized_chunk_dims (heap s (chunk_dims (self s)))))
    as (plan & Hplan & _); [by rewrite length_chars |].
  exists s', plan. split; [|split; [done | by rewrite Hself]].
  rewrite Hrun. unfold create_result. rewrite Hs, Hlen, Nat.eqb_refl. simpl.
  by rewrite Hplan.
Qed.

Lemma create_dask_array_ok (tiff : TiffFile) (dims_list : list string)
    (s : State) (scene : Scene) :
  series tiff !! _current_scene_index (self s) = Some scene →
  length (shape scene) = String.length (join dims_list) →
  NoDup (chars (join dims_list)) →
  ∃ s' plan,
    _create_dask_array tiff dims_list s
    = (s', inr (assemble (_path (self s)) (_current_scene_index (self s))
                         (dtype scene) plan))
    ∧ chunk_plan (join dims_list) (shape scene)
        (normalized_chunk_dims (heap s (chunk_dims (self s)))) = inr plan.
Proof.
  intros Hs Hlen Hnd.
  destruct (create_dask_array_plan tiff dims_list s scene Hs Hlen)
    as (s' & plan & Hrun & Hplan & _).
  exists s', plan. split; [|done].
  rewrite Hrun, (da_transpose_plan _ _ _ _ _ _ _ (eq_sym
    (eq_trans Hlen (eq_sym (length_chars _)))) Hplan).
  by rewrite bool_decide_eq_true_2.
Qed.

Lemma create_dask_array_repeated (tiff : TiffFile) (dims_list : list string)
    (s : State) (scene : Scene) :
  series tiff !! _current_scene_index (self s) = Some scene →
  length (shape scene) = String.length (join dims_list) →
  ¬ NoDup (chars (join dims_list)) →
  ∃ s', _create_dask_array tiff dims_list s = (s', inl ValueError).
Proof.
  intros Hs Hlen Hnd.
  destruct (create_dask_array_plan tiff dims_list s scene Hs Hlen)
    as (s' & plan & Hrun & Hplan & _).
  exists s'.
  rewrite Hrun, (da_transpose_plan _ _ _ _ _ _ _ (eq_sym
    (eq_trans Hlen (eq_sym (length_chars _)))) Hplan).
  by rewrite bool_decide_eq_false_2.
Qed.

(** C1: when the resolved axis labels of the scene (the characters of
    the joined label list, which for one-letter labels is the list
    itself) are pairwise distinct, the forward permutation [transposer] (for each axis in
    blocked order, its index in the original order) and the restore
    permutation [transpose_indices] (for each position of the original
    order, where its label landed in the blocked order) are
    permutations of the axis numbers and inverse to each other:
    transposing by the first takes the original order to the blocked
    order, transposing by the second takes it back, and so for anything
    listed per axis. *)
Theorem transposes_are_inverse (tiff : TiffFile) (dims_list : list string)
    (s : State) (scene : Scene) :
  series tiff !! _current_scene_index (self s) = Some scene →
  length (shape scene) = String.length (join dims_list) →
  NoDup (chars (join dims_list)) →
  let dims := chars (join dims_list) in
  let n := length dims in
  ∃ s' plan,
    _create_dask_array tiff dims_list s
    = (s', inr (assemble (_path (self s)) (_current_scene_index (self s))
                         (dtype scene) plan))
    ∧ transposer plan ≡ₚ Z.of_nat <$> seq 0 n
    ∧ transpose_indices plan ≡ₚ Z.of_nat <$> seq 0 n
    ∧ (∀ i, (i < n)%nat →
         ∃ j, transpose_indices plan !! i = Some (Z.of_nat j)
              ∧ transposer plan !! j = Some (Z.of_nat i))
    ∧ (∀ j, (j < n)%nat →
         ∃ i, transposer plan !! j = Some (Z.of_nat i)
              ∧ transpose_indices plan !! i = Some (Z.of_nat j))
    ∧ np_transpose (transposer plan) dims = inr (blocked_dim_order plan)
    ∧ np_transpose (transpose_indices plan) (blocked_dim_order plan) = inr dims
    ∧ ∀ (A : Type) (l : list A), length l = n →
        ∃ l', np_transpose (transposer plan) l = inr l'
              ∧ np_transpose (transpose_indices plan) l' = inr l.
Proof.
  intros Hs Hlen Hnd dims n.
  destruct (create_dask_array_ok tiff dims_list s scene Hs Hlen Hnd)
    as (s' & plan & Hrun & Hplan).
  destruct (chunk_plan_spec (join dims_list) (shape scene)
              (normalized_chunk_dims (heap s (chunk_dims (self s)))))
    as (plan' & Hplan' & _ & _ & Hb & Hf & Hr & _); [by rewrite length_chars |].
  assert (plan' = plan) as -> by congruence.
  set (cd := normalized_chunk_dims (heap s (chunk_dims (self s)))) in *.
  fold dims in Hb, Hf, Hr.
  rewrite (list_fmap_compose (position dims) Z.of_nat) in Hf.
  rewrite (list_fmap_compose (position (blocked_order dims cd)) Z.of_nat) in Hr.
  exists s', plan. rewrite Hf, Hr, Hb.
  split; [done |].
  split; [by rewrite (forward_perm dims cd Hnd) |].
  split; [by rewrite (restore_perm dims cd Hnd) |].
  split.
  { intros i Hi. destruct (restore_then_forward dims cd Hnd i Hi) as (j & Hj & Hi').
    exists j. split; [by rewrite list_lookup_fmap, Hj | by rewrite list_lookup_fmap, Hi']. }
  split.
  { intros j Hj. destruct (forward_then_restore dims cd Hnd j Hj) as (i & Hi & Hj').
    exists i. split; [by rewrite list_lookup_fmap, Hi | by rewrite list_lookup_fmap, Hj']. }
  split; [by apply forward_transpose_labels |].
  split; [by apply restore_transpose_labels |].
  intros A l Hl. by apply transpose_round_trip.
Qed.

(** C2: for axis labels and a shape of equal length and any chunk
    dimensions given by the caller, the partition built by
    [_create_dask_array] (the plan computed from the chunk dimensions
    the reader holds after the call, whose blocks the call then
    transposes) puts an axis in the chunked group exactly when its label
    is among these chunk dimensions; so it has as many non-chunked plus
    chunked axes as there are axes, each group keeps the relative order
    of the original axis order, and the axes labelled Y, X and S are
    always in the chunked group, also when the caller did not ask for
    them. When the labels are pairwise distinct the call returns the
    array of that plan. *)
Theorem partition_invariants (tiff : TiffFile) (dims_list : list string)
    (s : State) (scene : Scene) :
  series tiff !! _current_scene_index (self s) = Some scene →
  length (shape scene) = String.length (join dims_list) →
  let dims := chars (join dims_list) in
  ∃ s' plan,
    chunk_plan (join dims_list) (shape scene) (heap s' (chunk_dims (self s')))
    = inr plan
    ∧ _create_dask_array tiff dims_list s
      = (s', da_transpose
               (da_block (_path (self s)) (_current_scene_index (self s))
                         (dtype scene) plan)
               (transpose_indices plan))
    ∧ (NoDup dims →
       _create_dask_array tiff dims_list s
       = (s', inr (assemble (_path (self s)) (_current_scene_index (self s))
                            (dtype scene) plan)))
    ∧ non_chunk_dim_order plan
      = filter (λ d, d ∉ heap s' (chunk_dims (self s'))) dims
    ∧ chunk_dim_order plan
      = filter (λ d, d ∈ heap s' (chunk_dims (self s'))) dims
    ∧ (length (non_chunk_dim_order plan) + length (chunk_dim_order plan)
       = length dims)%nat
    ∧ non_chunk_dim_order plan `sublist_of` dims
    ∧ chunk_dim_order plan `sublist_of` dims
    ∧ (∀ d, d ∈ dims → d ∈ REQUIRED_CHUNK_DIMS →
         d ∈ chunk_dim_order plan ∧ d ∉ non_chunk_dim_order plan)
    ∧ (∀ d, d ∈ dims → d ∈ chunk_dim_order plan ∨ d ∈ non_chunk_dim_order plan)
    ∧ length (non_chunk_shape plan) = length (non_chunk_dim_order plan)
    ∧ length (chunk_shape plan) = length (chunk_dim_order plan).
Proof.
  intros Hs Hlen dims.
  destruct (create_dask_array_plan tiff dims_list s scene Hs Hlen)
    as (s' & plan & Hrun & Hplan & Hcd).
  destruct (chunk_plan_spec (join dims_list) (shape scene)
              (normalized_chunk_dims (heap s (chunk_dims (self s)))))
    as (plan' & Hplan' & Hnc & Hc & _ & _ & _ & Hncs & Hcs & _);
    [by rewrite length_chars |].
  assert (plan' = plan) as -> by congruence.
  assert (Hlen' : length (chars (join dims_list)) = length (shape scene)).
  { by rewrite length_chars. }
  exists s', plan. rewrite Hcd.
  set (cd := normalized_chunk_dims (heap s (chunk_dims (self s)))) in *.
  fold dims in Hnc, Hc.
  split; [done |]. split; [done |].
  split.
  { intros Hnd. rewrite Hrun, (da_transpose_plan _ _ _ _ _ _ _ Hlen' Hplan).
    by rewrite bool_decide_eq_true_2. }
  rewrite Hncs, Hcs, Hnc, Hc.
  split; [done |]. split; [done |].
  split.
  { rewrite <- length_app. change (length (blocked_order dims cd) = length dims).
    by rewrite blocked_order_perm. }
  split; [apply sublist_filter |].
  split; [apply sublist_filter |].
  split.
  { intros d Hd Hreq. rewrite !list_elem_of_filter.
    pose proof (normalized_required (heap s (chunk_dims (self s))) d Hreq).
    tauto. }
  split; [|done].
  intros d Hd. rewrite !list_elem_of_filter.
  destruct (decide (d ∈ cd)); tauto.
Qed.

(** C8: whenever the length of the resolved axis-label string differs
    from the length of the shape of the scene, [_create_dask_array]
    raises [ConflictingArgumentsError]; no array is built or returned
    and no file is touched. *)
Theorem shape_mismatch_raises (tiff : TiffFile) (dims_list : list string)
    (s : State) (scene : Scene) :
  series tiff !! _current_scene_index (self s) = Some scene →
  String.length (join dims_list) ≠ length (shape scene) →
  ∃ s',
    _create_dask_array tiff dims_list s = (s', inl ConflictingArgumentsError)
    ∧ io_log s' = io_log s
    ∧ files s' = files s.
Proof.
  intros Hs Hlen.
  destruct (create_dask_array_run tiff dims_list s)
    as (s' & Hrun & _ & _ & _ & _ & _ & Hf & Hio & _).
  exists s'. split; [|done].
  rewrite Hrun. unfold create_result. rewrite Hs.
  destruct (Nat.eqb_spec (length (shape scene)) (String.length (join dims_list)));
    [congruence | done].
Qed.

(** C10: [_create_dask_array] changes the [chunk_dims] of the reader:
    the required dimensions Y, X and S that are missing are appended
    (to the very list object that was given) and the field is rebound to
    the upper-cased list; so after the first read the field differs from
    what the caller gave exactly when that had an entry that is not
    upper case or lacked a required dimension, a later read changes
    nothing more, and every other field of the reader is as before. *)
Theorem chunk_dims_normalized_in_place (tiff : TiffFile)
    (dims_list : list string) (s : State) :
  let given := heap s (chunk_dims (self s)) in
  ∃ s' r,
    _create_dask_array tiff dims_list s = (s', r)
    ∧ heap s' (chunk_dims (self s'))
      = str_upper <$> (given ++ filter (λ d, d ∉ given) REQUIRED_CHUNK_DIMS)
    ∧ Forall (λ d, d ∈ heap s' (chunk_dims (self s'))) REQUIRED_CHUNK_DIMS
    ∧ Forall (λ d, str_upper d = d) (heap s' (chunk_dims (self s')))
    ∧ (heap s' (chunk_dims (self s')) ≠ given
       ↔ ¬ (Forall (λ d, str_upper d = d) given
            ∧ Forall (λ d, d ∈ given) REQUIRED_CHUNK_DIMS))
    ∧ (chunk_dims (self s) ≠ next_loc s →
       heap s' (chunk_dims (self s))
       = given ++ filter (λ d, d ∉ given) REQUIRED_CHUNK_DIMS)
    ∧ (_path (self s') = _path (self s)
       ∧ _dim_order (self s') = _dim_order (self s)
       ∧ _channel_names (self s') = _channel_names (self s)
       ∧ _scenes (self s') = _scenes (self s)
       ∧ _physical_pixel_sizes (self s') = _physical_pixel_sizes (self s)
       ∧ _current_scene_index (self s') = _current_scene_index (self s))
    ∧ (∀ tiff2 dims_list2, ∃ s'' r2,
         _create_dask_array tiff2 dims_list2 s' = (s'', r2)
         ∧ heap s'' (chunk_dims (self s'')) = heap s' (chunk_dims (self s'))).
Proof.
  intros given.
  destruct (create_dask_array_run tiff dims_list s)
    as (s' & Hrun & Hself & Hnew & Hold & _).
  assert (Hcd : heap s' (chunk_dims (self s')) = normalized_chunk_dims given).
  { by rewrite Hself. }
  exists s', (create_result tiff dims_list (self s) (normalized_chunk_dims given)).
  split; [done |]. rewrite Hcd.
  split; [unfold normalized_chunk_dims; by rewrite with_required_eq |].
  split; [apply Forall_forall; intros d Hd; by apply normalized_required |].
  split; [apply normalized_upper |].
  split; [by rewrite normalized_fixed |].
  split; [intros Hne; rewrite <- with_required_eq; by apply Hold |].
  split; [by rewrite Hself |].
  intros tiff2 dims_list2.
  destruct (create_dask_array_run tiff2 dims_list2 s')
    as (s'' & Hrun2 & Hself2 & Hnew2 & _).
  exists s'', (create_result tiff2 dims_list2 (self s')
                 (normalized_chunk_dims (heap s' (chunk_dims (self s'))))).
  split; [done |].
  rewrite Hself2. simpl. rewrite Hnew2, Hcd. apply normalized_idemp.
Qed.

(** C9: on a file with N scenes, constructing a reader with [dim_order]
    a list whose length is not N raises [ConflictingArgumentsError]
    during construction; the file has been opened once and no pixel
    has been read. *)
Theorem init_rejects_dim_order_count (s : State) (image : string)
    (chunk_dims : chunk_dims_arg) (dim_order : list (option string))
    (channel_names : option (list channel_item)) (tiff : TiffFile) :
  files s !! image = Some (Tiff tiff) →
  _scenes (self s) = None →
  length dim_order ≠ length (series tiff) →
  ∃ s',
    __init__ image chunk_dims (DimList dim_order) channel_names s
    = (s', inl ConflictingArgumentsError)
    ∧ io_log s' = io_log s ++ [EvOpen image]
    ∧ ∀ path scene,
        EvReadPixels path scene ∈ io_log s' → EvReadPixels path scene ∈ io_log s.
Proof.
  intros Hf Hsc Hlen.
  assert (Hneq : (length dim_order =? length
             (generate_ome_image_id <$> seq 0 (length (series tiff))))%nat = false).
  { apply Nat.eqb_neq. by rewrite length_fmap, length_seq. }
  unfold __init__, scenes, mbind, M_bind, pathlike_to_fs, emit, modify_self,
    get_self, fs_open, lift, throw, mret, M_ret, list_new.
  destruct (str_contains ".ome.tif" image), chunk_dims as [cs|cl]; simpl;
    repeat (first [rewrite Hf | rewrite Hsc | rewrite Hneq]; simpl);
    (eexists; split; [reflexivity |]; simpl; split; [reflexivity |];
     intros path scene [Hin | Hin%list_elem_of_singleton]%elem_of_app;
     [done | discriminate]).
Qed.

(** ** The claims at concrete inputs

    Each statement below is one of the theorems above applied to an
    example file and state. *)

Lemma guess_known_hint_unchanged_witness :
  ∃ out,
    @_guess_tiff_dim_order guess_from_TCZYX
      (stack_tiff "TZYX" [2; 3; 64; 64]%nat)
      (example_state "a.tif" (Tiff (stack_tiff "TZYX" [2; 3; 64; 64]%nat))
         ["Z"; "Y"; "X"])
    = (example_state "a.tif" (Tiff (stack_tiff "TZYX" [2; 3; 64; 64]%nat))
         ["Z"; "Y"; "X"], inr out)
    ∧ out = ["T"; "Z"; "Y"; "X"]
    ∧ @_guess_tiff_dim_order guess_from_TCZYX
        (stack_tiff (join out) [2; 3; 64; 64]%nat)
        (example_state "a.tif" (Tiff (stack_tiff "TZYX" [2; 3; 64; 64]%nat))
           ["Z"; "Y"; "X"])
      = (example_state "a.tif" (Tiff (stack_tiff "TZYX" [2; 3; 64; 64]%nat))
           ["Z"; "Y"; "X"], inr out).
Proof.
  destruct (@guess_known_hint_unchanged guess_from_TCZYX
              (stack_tiff "TZYX" [2; 3; 64; 64]%nat)
              (example_scene_of [2; 3; 64; 64]%nat "TZYX" [])
              (example_state "a.tif"
                 (Tiff (stack_tiff "TZYX" [2; 3; 64; 64]%nat)) ["Z"; "Y"; "X"])
              eq_refl) as (out & Hrun & Hknown & Hidem).
  assert (Hk : Forall known (chars "TZYX")).
  { apply (bool_decide_unpack _). vm_compute. exact I. }
  destruct (Hknown Hk) as (Hout & _).
  exists out. split; [exact Hrun |]. split; [exact Hout |].
  apply (Hidem (eq_ind_r (Forall known) Hk Hout)
               (stack_tiff (join out) [2; 3; 64; 64]%nat)
               (example_scene_of [2; 3; 64; 64]%nat (join out) [])
               eq_refl eq_refl).
Defined.

Lemma guess_all_placeholders_witness :
  ∃ out,
    @_guess_tiff_dim_order guess_from_TCZYX
      (stack_tiff "QQI" [3; 512; 512]%nat)
      (example_state "a.tif" (Tiff (stack_tiff "QQI" [3; 512; 512]%nat))
         ["Z"; "Y"; "X"])
    = (example_state "a.tif" (Tiff (stack_tiff "QQI" [3; 512; 512]%nat))
         ["Z"; "Y"; "X"], inr out)
    ∧ out ≡ₚ ["Z"; "Y"; "X"]
    ∧ NoDup out.
Proof.
  destruct (@guess_all_placeholders guess_from_TCZYX
              (stack_tiff "QQI" [3; 512; 512]%nat)
              (example_scene_of [3; 512; 512]%nat "QQI" [])
              (example_state "a.tif"
                 (Tiff (stack_tiff "QQI" [3; 512; 512]%nat)) ["Z"; "Y"; "X"])
              eq_refl)
    as (out & Hrun & Hperm & Hnd & _).
  - apply (bool_decide_unpack _). vm_compute. exact I.
  - reflexivity.
  - apply (bool_decide_unpack _). vm_compute. exact I.
  - apply (bool_decide_unpack _). vm_compute. exact I.
  - exists out. split; [exact Hrun |]. split; [exact Hperm | exact Hnd].
Defined.

Lemma transposes_are_inverse_witness :
  ∃ s' plan,
    _create_dask_array (stack_tiff "ZTCYX" [5; 2; 3; 64; 64]%nat) (chars "ZTCYX")
      (example_state "a.tif"
         (Tiff (stack_tiff "ZTCYX" [5; 2; 3; 64; 64]%nat)) ["Z"; "Y"; "X"])
    = (s', inr (assemble "a.tif" 0 "uint16" plan))
    ∧ np_transpose (transposer plan) (chars "ZTCYX")
      = inr (blocked_dim_order plan)
    ∧ np_transpose (transpose_indices plan) (blocked_dim_order plan)
      = inr (chars "ZTCYX").
Proof.
  destruct (transposes_are_inverse
              (stack_tiff "ZTCYX" [5; 2; 3; 64; 64]%nat) (chars "ZTCYX")
              (example_state "a.tif"
                 (Tiff (stack_tiff "ZTCYX" [5; 2; 3; 64; 64]%nat))
                 ["Z"; "Y"; "X"])
              (example_scene_of [5; 2; 3; 64; 64]%nat "ZTCYX" [])
              eq_refl eq_refl)
    as (s' & plan & Hrun & _ & _ & _ & _ & Hfwd & Hback & _).
  - apply (bool_decide_unpack _). vm_compute. exact I.
  - exists s', plan. split; [exact Hrun |]. split; [exact Hfwd | exact Hback].
Defined.

Lemma partition_invariants_witness :
  ∃ s' plan,
    chunk_plan "TZYX" [2; 3; 64; 64]%nat (heap s' (chunk_dims (self s')))
    = inr plan
    ∧ _create_dask_array (stack_tiff "TZYX" [2; 3; 64; 64]%nat) (chars "TZYX")
        (example_state "a.tif"
           (Tiff (stack_tiff "TZYX" [2; 3; 64; 64]%nat)) ["t"])
      = (s', inr (assemble "a.tif" 0 "uint16" plan))
    ∧ (length (non_chunk_dim_order plan) + length (chunk_dim_order plan)
       = 4)%nat
    ∧ "Y" ∈ chunk_dim_order plan
    ∧ "X" ∈ chunk_dim_order plan.
Proof.
  destruct (partition_invariants
              (stack_tiff "TZYX" [2; 3; 64; 64]%nat) (chars "TZYX")
              (example_state "a.tif"
                 (Tiff (stack_tiff "TZYX" [2; 3; 64; 64]%nat)) ["t"])
              (example_scene_of [2; 3; 64; 64]%nat "TZYX" [])
              eq_refl eq_refl)
    as (s' & plan & Hplan & _ & Hrun & _ & _ & Hlen & _ & _ & Hreq & _).
  exists s', plan. split; [exact Hplan |]. split.
  { apply Hrun. apply (bool_decide_unpack _). vm_compute. exact I. }
  split; [exact Hlen |].
  split.
  - apply (Hreq "Y"); apply (bool_decide_unpack _); vm_compute; exact I.
  - apply (Hreq "X"); apply (bool_decide_unpack _); vm_compute; exact I.
Defined.

Lemma shape_mismatch_raises_witness :
  ∃ s',
    _create_dask_array (stack_tiff "TZYX" [2; 3; 64; 64]%nat) (chars "ZYX")
      (example_state "a.tif"
         (Tiff (stack_tiff "TZYX" [2; 3; 64; 64]%nat)) ["Z"; "Y"; "X"])
    = (s', inl ConflictingArgumentsError).
Proof.
  destruct (shape_mismatch_raises
              (stack_tiff "TZYX" [2; 3; 64; 64]%nat) (chars "ZYX")
              (example_state "a.tif"
                 (Tiff (stack_tiff "TZYX" [2; 3; 64; 64]%nat)) ["Z"; "Y"; "X"])
              (example_scene_of [2; 3; 64; 64]%nat "TZYX" [])
              eq_refl)
    as (s' & Hrun & _).
  - simpl. lia.
  - exists s'. exact Hrun.
Defined.

Lemma init_rejects_dim_order_count_witness :
  ∃ s',
    __init__ "a.tif" (ChunkStr "ZYX") (DimList [Some "CYX"; None; Some "YX"]) None
      (example_state "a.tif" (Tiff two_scene_tiff) [])
    = (s', inl ConflictingArgumentsError)
    ∧ io_log s' = [EvOpen "a.tif"].
Proof.
  destruct (init_rejects_dim_order_count
              (example_state "a.tif" (Tiff two_scene_tiff) [])
              "a.tif" (ChunkStr "ZYX") [Some "CYX"; None; Some "YX"] None
              two_scene_tiff eq_refl eq_refl)
    as (s' & Hrun & Hlog & _).
  - simpl. lia.
  - exists s'. split; [exact Hrun | exact Hlog].
Defined.

Lemma chunk_dims_normalized_in_place_witness :
  ∃ s' r,
    _create_dask_array (stack_tiff "TZYX" [2; 3; 64; 64]%nat) (chars "TZYX")
      (example_state "a.tif"
         (Tiff (stack_tiff "TZYX" [2; 3; 64; 64]%nat)) ["t"; "y"])
    = (s', r)
    ∧ heap s' (chunk_dims (self s')) = ["T"; "Y"; "Y"; "X"; "S"]
    ∧ heap s' 0%nat = ["t"; "y"; "Y"; "X"; "S"].
Proof.
  destruct (chunk_dims_normalized_in_place
              (stack_tiff "TZYX" [2; 3; 64; 64]%nat) (chars "TZYX")
              (example_state "a.tif"
                 (Tiff (stack_tiff "TZYX" [2; 3; 64; 64]%nat)) ["t"; "y"]))
    as (s' & r & Hrun & Hnew & _ & _ & _ & Hold & _).
  exists s', r. split; [exact Hrun |]. split; [exact Hnew |].
  apply Hold. simpl. lia.
Defined.

(** ** The model at work *)

(** The merge fills a placeholder with the first guessed letter the
    metadata does not claim, and keeps a placeholder when the guess runs
    out. *)
Example merge_examples :
  _merge_dim_guesses "QYX" "CYX" = "CYX"
  ∧ _merge_dim_guesses "QYX" "ZYX" = "ZYX"
  ∧ _merge_dim_guesses "TQY" "TCZYX" = "TCY"
  ∧ _merge_dim_guesses "QIQQ" "CYX" = "CYXQ".
Proof. repeat split; reflexivity. Qed.

(** The example of the source: dimensions "TZYX" chunked by T, Y and X
    are read as "ZTYX" blocks, one per Z index, and transposed back. *)
Example chunk_plan_example :
  chunk_plan "TZYX" [2; 3; 64; 64]%nat ["T"; "Y"; "X"; "S"]
  = inr {| non_chunk_dim_order := ["Z"]; non_chunk_shape := [3%nat];
           chunk_dim_order := ["T"; "Y"; "X"];
           chunk_shape := [2; 64; 64]%nat;
           blocked_dim_order := ["Z"; "T"; "Y"; "X"];
           blocked_shape := [3; 1; 1; 1]%nat;
           transposer := [1; 0; 2; 3];
           transpose_indices := [1; 0; 2; 3] |}.
Proof. reflexivity. Qed.

(** A label given twice makes the restore transposition name an axis
    twice, and the final [da.transpose] refuses it. *)
Example repeated_label_example :
  chunk_plan "TTYX" [2; 3; 64; 64]%nat ["Y"; "X"; "S"]
  = inr {| non_chunk_dim_order := ["T"; "T"]; non_chunk_shape := [2; 3]%nat;
           chunk_dim_order := ["Y"; "X"];
           chunk_shape := [64; 64]%nat;
           blocked_dim_order := ["T"; "T"; "Y"; "X"];
           blocked_shape := [2; 3; 1; 1]%nat;
           transposer := [0; 0; 2; 3];
           transpose_indices := [0; 0; 2; 3] |}
  ∧ (_create_dask_array (stack_tiff "TTYX" [2; 3; 64; 64]%nat) (chars "TTYX")
       (example_state "a.tif"
          (Tiff (stack_tiff "TTYX" [2; 3; 64; 64]%nat)) ["Y"; "X"])).2
    = inl ValueError.
Proof. split; reflexivity. Qed.

(** Forcing the block of Z index 1 of that array opens the file, reads
    pixels and yields an array of the declared shape; its element at
    (T, Y, X) = (1, 2, 3) is the element of the scene at
    (T, Z, Y, X) = (1, 1, 2, 3). *)
Example forced_block_example :
  let tiff := stack_tiff "TZYX" [2; 3; 64; 64]%nat in
  let s := example_state "a.tif" (Tiff tiff) ["T"; "Y"; "X"] in
  let '(s', chunk) :=
    _get_image_data "a.tif" 0 [Idx 1; SliceAll; SliceAll; SliceAll]
                    [1; 0; 2; 3] s in
  io_log s' = [EvOpen "a.tif"; EvReadPixels "a.tif" 0]
  ∧ (nd_shape <$> chunk) = inr [2; 64; 64]%nat
  ∧ ((λ a, nd_at a [1; 2; 3]%nat) <$> chunk) = inr 1001002003.
Proof. repeat split; reflexivity. Qed.

(* ===================================================================== *)
(** * Further properties of the code *)
(* ===================================================================== *)

(** ** The merge of metadata and guess *)

Lemma chars_letters (s : string) :
  Forall (λ d, String.length d = 1%nat) (chars s).
Proof. induction s as [|c s IH]; simpl; constructor; done. Qed.

Lemma first_free_Some (guessed best meta : list string) (g : string) :
  first_free_guess guessed best meta = Some g →
  g ∈ guessed ∧ (g ∉ best) ∧ (g ∉ meta).
Proof.
  induction guessed as [|x guessed IH]; simpl; [done |].
  destruct (py_in x best) eqn:Hb; simpl.
  { intros [? ?]%IH. split; [by right | done]. }
  destruct (py_in x meta) eqn:Hm; simpl.
  { intros [? ?]%IH. split; [by right | done]. }
  intros [= <-]. apply py_in_false in Hb, Hm. split; [by left | done].
Qed.

Lemma merge_step_spec (meta guessed : string) (best : list string) (d : string) :
  ∃ o, merge_step meta guessed best d = best ++ [o]
       ∧ merged_from meta guessed d o
       ∧ (o = d ∨ ((o ∉ best) ∧ (o ∉ chars meta) ∧ o ∈ chars guessed ∧ ¬ known d)).
Proof.
  unfold merge_step, merged_from.
  destruct (py_in d UNKNOWN_DIM_CHARS) eqn:Hd; simpl.
  - apply py_in_true in Hd.
    destruct (first_free_guess _ _ _) as [g|] eqn:Hg.
    + apply first_free_Some in Hg as (Hg & Hb & Hm).
      exists g. split; [done |]. unfold known. split; [|right]; naive_solver.
    + exists d. split; [done |]. unfold known. naive_solver.
  - apply py_in_false in Hd. exists d. split; [done |]. unfold known.
    naive_solver.
Qed.

Lemma merge_fold_spec (meta guessed : string) (l acc : list string) :
  ∃ outs,
    fold_left (merge_step meta guessed) l acc = acc ++ outs
    ∧ Forall2 (merged_from meta guessed) l outs.
Proof.
  revert acc. induction l as [|d l IH]; intros acc; simpl.
  - exists []. by rewrite app_nil_r.
  - destruct (merge_step_spec meta guessed acc d) as (o & -> & Ho & _).
    destruct (IH (acc ++ [o])) as (outs & -> & Houts).
    exists (o :: outs). rewrite <- app_assoc. split; [done | by constructor].
Qed.

Lemma merged_from_letter (meta guessed d o : string) :
  String.length d = 1%nat → merged_from meta guessed d o →
  String.length o = 1%nat.
Proof.
  intros Hd [Hk Hn]. destruct (decide (known d)) as [H|H].
  - by rewrite (Hk H).
  - destruct (Hn H) as [-> | [Hg _]]; [done |].
    pose proof (chars_letters guessed) as Hall.
    rewrite Forall_forall in Hall. by apply Hall.
Qed.

Lemma merge_chars (meta guessed : string) :
  ∃ outs,
    chars (_merge_dim_guesses meta guessed) = outs
    ∧ Forall2 (merged_from meta guessed) (chars meta) outs.
Proof.
  unfold _merge_dim_guesses.
  destruct (merge_fold_spec meta guessed (chars meta) []) as (outs & -> & Houts).
  exists outs. split; [|done]. simpl. apply chars_join_letters.
  pose proof (chars_letters meta) as Hm.
  induction Houts as [|d o l outs Hdo _ IH]; [constructor |].
  inversion Hm; subst. constructor; [by eapply merged_from_letter | by apply IH].
Qed.

Lemma merge_length (meta guessed : string) :
  String.length (_merge_dim_guesses meta guessed) = String.length meta.
Proof.
  destruct (merge_chars meta guessed) as (outs & Hc & Houts).
  rewrite <- !length_chars, Hc. symmetry. by eapply Forall2_length.
Qed.

(** X1: the merge of the axes string of the metadata with a guess has one
    label per position of the metadata; a label that is no placeholder
    stays at its place, and a placeholder is either kept or replaced by
    a letter of the guess that the metadata does not name. *)
Theorem merge_position_wise (meta guessed : string) :
  String.length (_merge_dim_guesses meta guessed) = String.length meta
  ∧ ∀ i d,
      chars meta !! i = Some d →
      ∃ o, chars (_merge_dim_guesses meta guessed) !! i = Some o
           ∧ (known d → o = d)
           ∧ (¬ known d → o = d ∨ (o ∈ chars guessed ∧ o ∉ chars meta)).
Proof.
  destruct (merge_chars meta guessed) as (outs & Hc & Houts).
  split.
  - rewrite <- !length_chars, Hc. symmetry. by eapply Forall2_length.
  - intros i d Hi. rewrite Hc.
    destruct (Forall2_lookup_l _ _ _ _ _ Houts Hi) as (o & Ho & Hk & Hn).
    eauto.
Qed.

Lemma known_labels_app (l k : list string) :
  known_labels (l ++ k) = known_labels l ++ known_labels k.
Proof. unfold known_labels. apply filter_app. Qed.

Lemma merge_fold_distinct (meta guessed : string) (l acc : list string) :
  (∀ x, x ∈ l → x ∈ chars meta) →
  NoDup (known_labels l) →
  NoDup (known_labels acc) →
  (∀ x, x ∈ acc → known x → x ∉ l) →
  NoDup (known_labels (fold_left (merge_step meta guessed) l acc)).
Proof.
  revert acc. induction l as [|d l IH]; intros acc Hsub Hl Hacc Hsep; simpl;
    [done |].
  destruct (merge_step_spec meta guessed acc d) as (o & -> & _ & Ho).
  assert (Hl' : NoDup (known_labels l)).
  { unfold known_labels in *. rewrite filter_cons in Hl.
    destruct (decide (known d)); [by inversion Hl | done]. }
  apply IH; [intros x Hx; apply Hsub; by right | done | |].
  - rewrite known_labels_app. unfold known_labels at 2.
    rewrite filter_cons, filter_nil.
    destruct (decide (known o)) as [Hk|Hk]; [|by rewrite app_nil_r].
    apply NoDup_app. split; [done |]. split; [|apply NoDup_singleton].
    intros x Hx ->%list_elem_of_singleton.
    apply list_elem_of_filter in Hx as [_ Hx].
    destruct Ho as [-> | (Hb & _)]; [|done].
    apply (Hsep d Hx Hk). by left.
  - intros x [Hx | ->%list_elem_of_singleton]%elem_of_app Hk Hin.
    + apply (Hsep x Hx Hk). by right.
    + destruct Ho as [-> | (_ & Hm & _)].
      * unfold known_labels in Hl. rewrite filter_cons in Hl.
        rewrite decide_True in Hl by done. inversion Hl as [|? ? Hnot _]; subst.
        apply Hnot. by apply list_elem_of_filter.
      * apply Hm, Hsub. by right.
Qed.

(** X2: when the labels of the metadata that are no placeholders are
    pairwise distinct, so are those of the merged order: the merge never
    makes a second copy of a label. *)
Theorem merge_keeps_labels_distinct (meta guessed : string) :
  NoDup (known_labels (chars meta)) →
  NoDup (known_labels (chars (_merge_dim_guesses meta guessed))).
Proof.
  intros Hnd.
  assert (Hfold : NoDup (known_labels
            (fold_left (merge_step meta guessed) (chars meta) []))).
  { apply merge_fold_distinct; try done.
    - constructor.
    - intros x Hx. by apply elem_of_nil in Hx. }
  destruct (merge_chars meta guessed) as (outs & Hc & Houts).
  unfold _merge_dim_guesses in *.
  destruct (merge_fold_spec meta guessed (chars meta) []) as (outs' & Heq & Houts').
  rewrite Heq in *. simpl in *.
  rewrite chars_join_letters; [done |].
  pose proof (chars_letters meta) as Hm.
  clear -Houts' Hm.
  induction Houts' as [|d o l outs Hdo _ IH]; [constructor |].
  inversion Hm; subst. constructor; [by eapply merged_from_letter | by apply IH].
Qed.

(** ** Scene identifiers *)

Lemma str_of_nat_inj (a b : nat) : str_of_nat a = str_of_nat b → a = b.
Proof.
  unfold str_of_nat. intros H.
  apply DecimalNat.Unsigned.to_uint_inj.
  apply (f_equal DecimalString.NilEmpty.uint_of_string) in H.
  rewrite !DecimalString.NilEmpty.usu in H. congruence.
Qed.

Lemma append_inj_r (p a b : string) :
  String.append p a = String.append p b → a = b.
Proof. induction p as [|c p IH]; simpl; [done |]. intros [= H]. by apply IH. Qed.

Lemma generate_ome_image_id_inj (a b : nat) :
  generate_ome_image_id a = generate_ome_image_id b → a = b.
Proof. unfold generate_ome_image_id. intros H%append_inj_r. by apply str_of_nat_inj. Qed.

Lemma scene_ids_NoDup (tiff : TiffFile) : NoDup (scene_ids tiff).
Proof.
  unfold scene_ids. apply NoDup_fmap_2_strong; [|apply NoDup_seq].
  intros a b _ _. apply generate_ome_image_id_inj.
Qed.

(** X3: on a TIFF file with N series, the first access to [scenes] opens
    the file once and returns N pairwise distinct identifiers, the i-th
    being "Image:" followed by i; the result is kept, and the next
    access returns it without touching the file system. *)
Theorem scenes_enumerates_series (s : State) (tiff : TiffFile) :
  _scenes (self s) = None →
  files s !! _path (self s) = Some (Tiff tiff) →
  ∃ s' ids,
    scenes s = (s', inr ids)
    ∧ length ids = length (series tiff)
    ∧ NoDup ids
    ∧ (∀ i, (i < length (series tiff))%nat →
         ids !! i = Some (String.append "Image:" (str_of_nat i)))
    ∧ io_log s' = io_log s ++ [EvOpen (_path (self s))]
    ∧ scenes s' = (s', inr ids).
Proof.
  intros Hc Hf. exists (with_self (set_scenes (Some (scene_ids tiff)) (self s))
    (with_io_log (io_log s ++ [EvOpen (_path (self s))]) s)), (scene_ids tiff).
  split.
  { unfold scenes, mbind, M_bind, get_self, fs_open, lift, modify_self, mret, M_ret.
    simpl. rewrite Hc, Hf. reflexivity. }
  split; [unfold scene_ids; by rewrite length_fmap, length_seq |].
  split; [apply scene_ids_NoDup |].
  split.
  { intros i Hi. unfold scene_ids. rewrite list_lookup_fmap, lookup_seq_lt by done.
    reflexivity. }
  split; reflexivity.
Qed.

(** ** Pixel sizes, continued *)

(** X4: when [_get_pixel_size] succeeds, the first access to
    [physical_pixel_sizes] opens the file once, warns of nothing and
    returns the sizes; every later access, in any state with the same
    reader, returns them without opening the file. *)
Theorem physical_pixel_sizes_cached (s : State) (f : File) (sizes : PixelSizes) :
  _physical_pixel_sizes (self s) = None →
  files s !! _path (self s) = Some f →
  _get_pixel_size f (_current_scene_index (self s)) = inr sizes →
  ∃ s',
    physical_pixel_sizes s = (s', inr sizes)
    ∧ messages s' = messages s
    ∧ io_log s' = io_log s ++ [EvOpen (_path (self s))]
    ∧ ∀ s2,
        self s2 = self s' →
        physical_pixel_sizes s2 = (s2, inr sizes).
Proof.
  intros Hc Hf Hs. eexists.
  unfold physical_pixel_sizes at 1.
  unfold mbind, M_bind, get_self, fs_open, try_except, lift, emit,
    modify_self, mret, M_ret.
  simpl. rewrite Hc, Hf. simpl. rewrite Hs. simpl.
  split; [reflexivity |]. split; [reflexivity |]. split; [reflexivity |].
  intros s2 Hs2. unfold physical_pixel_sizes, mbind, M_bind, get_self.
  simpl. rewrite Hs2. reflexivity.
Qed.

(** X5: on an ImageJ file the pixel sizes depend on the ImageJ metadata and
    the two resolution tags only: two ImageJ files that agree on these
    get the same result, whatever their ResolutionUnit tags. *)
Theorem imagej_unit_takes_precedence (tiff tiff' : TiffFile)
    (scene scene' : Scene) (page page' : TiffPage) (idx : nat) :
  is_imagej tiff = true → is_imagej tiff' = true →
  imagej_metadata tiff' = imagej_metadata tiff →
  series tiff !! idx = Some scene → series tiff' !! idx = Some scene' →
  pages scene !! 0%nat = Some page → pages scene' !! 0%nat = Some page' →
  tags page' !! "XResolution" = tags page !! "XResolution" →
  tags page' !! "YResolution" = tags page !! "YResolution" →
  _get_pixel_size (Tiff tiff') idx = _get_pixel_size (Tiff tiff) idx.
Proof.
  intros Hij Hij' Hmd Hs Hs' Hp Hp' Hx Hy.
  unfold _get_pixel_size, open_tiff, list_get, dict_get. simpl.
  rewrite Hs, Hs'. simpl. rewrite Hp, Hp'. simpl.
  rewrite Hij, Hij', Hmd, Hx, Hy. reflexivity.
Qed.

(** X6: what [_get_pixel_size] raises: TiffFileError on a file that is no
    TIFF, IndexError for a scene index out of range or a scene without
    pages, and, once the unit is found, KeyError for the first missing
    resolution tag (XResolution before YResolution). *)
Theorem pixel_size_failures (tiff : TiffFile) (scene : Scene)
    (page : TiffPage) (idx : nat) :
  _get_pixel_size NotTiff idx = inl TiffFileError
  ∧ (series tiff !! idx = None →
     _get_pixel_size (Tiff tiff) idx = inl IndexError)
  ∧ (series tiff !! idx = Some scene → pages scene = [] →
     _get_pixel_size (Tiff tiff) idx = inl IndexError)
  ∧ (series tiff !! idx = Some scene → pages scene !! 0%nat = Some page →
     ∀ unit z_size, unit_source tiff page unit z_size →
       (tags page !! "XResolution" = None →
        _get_pixel_size (Tiff tiff) idx = inl (KeyError "XResolution"))
       ∧ (∀ xn xd, tags page !! "XResolution" = Some (VTuple [xn; xd]) →
          tags page !! "YResolution" = None →
          _get_pixel_size (Tiff tiff) idx = inl (KeyError "YResolution"))).
Proof.
  split; [reflexivity |].
  split.
  { intros Hs. unfold _get_pixel_size, open_tiff, list_get. simpl. by rewrite Hs. }
  split.
  { intros Hs Hp. unfold _get_pixel_size, open_tiff, list_get. simpl.
    rewrite Hs. simpl. by rewrite Hp. }
  intros Hs Hp unit z_size Hu.
  unfold _get_pixel_size, open_tiff, list_get, dict_get. simpl.
  rewrite Hs. simpl. rewrite Hp. simpl.
  unfold unit_source in Hu.
  destruct (is_imagej tiff).
  - destruct Hu as (md & -> & Hunit & ->). simpl. rewrite Hunit. simpl.
    split; [intros ->; reflexivity |].
    intros xn xd -> ->. reflexivity.
  - destruct Hu as [Hunit ->]. rewrite Hunit. simpl.
    split; [intros ->; reflexivity |].
    intros xn xd -> ->. reflexivity.
Qed.

(** ** The grid of lazy blocks *)

Lemma length_bind_const {A B} (f : A → list B) (l : list A) (k : nat) :
  (∀ x, length (f x) = k) → length (l ≫= f) = (length l * k)%nat.
Proof.
  intros Hf. induction l as [|a l IH]; [done |].
  rewrite bind_cons, length_app, Hf, IH. simpl. lia.
Qed.

Lemma ndindex_length (shape : list nat) :
  length (ndindex shape) = shape_size shape.
Proof.
  induction shape as [|n shape IH]; [done |].
  simpl. rewrite (length_bind_const _ _ (shape_size shape)).
  - by rewrite length_seq.
  - intros i. by rewrite length_fmap.
Qed.

Lemma elem_of_ndindex (ix shape : list nat) :
  ix ∈ ndindex shape ↔ in_bounds ix shape.
Proof.
  unfold in_bounds. revert ix. induction shape as [|n shape IH]; intros ix; simpl.
  - rewrite list_elem_of_singleton. split; [intros ->; constructor |].
    by inversion 1.
  - rewrite list_elem_of_bind. split.
    + intros (i & (ix' & -> & Hix)%list_elem_of_fmap & Hi%elem_of_seq).
      constructor; [lia | by apply IH].
    + inversion 1 as [|i ? ix' ? Hi Hix]; subst.
      exists i. split; [|apply elem_of_seq; lia].
      apply list_elem_of_fmap. exists ix'. split; [done | by apply IH].
Qed.

Lemma ndindex_NoDup (shape : list nat) : NoDup (ndindex shape).
Proof.
  induction shape as [|n shape IH]; simpl; [apply NoDup_singleton |].
  apply NoDup_bind; [| |apply NoDup_seq].
  - intros i j ix _ _ (? & -> & _)%list_elem_of_fmap (? & [= -> _] & _)%list_elem_of_fmap.
    done.
  - intros i _. apply NoDup_fmap_2; [|done]. by intros ? ? [= ->].
Qed.

Lemma in_bounds_app_ones (ix shape : list nat) (m : nat) :
  in_bounds ix (shape ++ replicate m 1%nat)
  ↔ in_bounds (take (length shape) ix) shape
    ∧ drop (length shape) ix = replicate m 0%nat.
Proof.
  unfold in_bounds. split.
  - intros (pre & post & Hpre & Hpost & ->)%Forall2_app_inv_r.
    pose proof (Forall2_length _ _ _ Hpre) as Hlen.
    rewrite <- Hlen, take_app_length, drop_app_length. split; [done |].
    clear -Hpost. revert post Hpost. induction m as [|m IH]; intros post; simpl.
    + by inversion 1.
    + inversion 1 as [|i ? post' ? Hi Hrest]; subst. f_equal; [lia | by apply IH].
  - intros [Hpre Hpost]. rewrite <- (take_drop (length shape) ix), Hpost.
    apply Forall2_app; [done |].
    clear. induction m; simpl; constructor; [lia | done].
Qed.

Lemma shape_size_app_ones (shape : list nat) (m : nat) :
  shape_size (shape ++ replicate m 1%nat) = shape_size shape.
Proof.
  unfold shape_size. rewrite foldr_app.
  replace (foldr Nat.mul 1%nat (replicate m 1%nat)) with 1%nat; [done |].
  induction m; simpl; lia.
Qed.

Lemma partition_dims_zip (dims : string) (shape : list nat) (cd : list string) :
  let p := partition_dims dims shape cd in
  zip (p_non_chunk_dim_order p) (p_non_chunk_shape p)
  = filter (λ ds, ds.1 ∉ cd) (zip (chars dims) shape)
  ∧ zip (p_chunk_dim_order p) (p_chunk_shape p)
    = filter (λ ds, ds.1 ∈ cd) (zip (chars dims) shape).
Proof.
  intros p. subst p. unfold partition_dims. rewrite partition_fold.
  cbn [p_non_chunk_dim_order p_non_chunk_shape p_chunk_dim_order
       p_chunk_shape app].
  by rewrite !zip_fst_snd.
Qed.

Lemma chunk_plan_fields (dims : string) (shape : list nat) (cd : list string)
    (plan : ChunkPlan) :
  chunk_plan dims shape cd = inr plan →
  let p := partition_dims dims shape cd in
  non_chunk_dim_order plan = p_non_chunk_dim_order p
  ∧ non_chunk_shape plan = p_non_chunk_shape p
  ∧ chunk_dim_order plan = p_chunk_dim_order p
  ∧ chunk_shape plan = p_chunk_shape p
  ∧ blocked_dim_order plan = p_non_chunk_dim_order p ++ p_chunk_dim_order p
  ∧ blocked_shape plan
    = p_non_chunk_shape p ++ replicate (length (p_chunk_shape p)) 1%nat.
Proof.
  unfold chunk_plan. cbv zeta.
  destruct (rmap _ _) as [e|ti]; destruct (rmap _ _) as [e'|t]; simpl;
    try discriminate.
  intros [= <-]. simpl. done.
Qed.

(** X7: when the dimensions fit the shape and are pairwise distinct,
    the call returns the delayed array, and it has exactly one lazy
    block per combination of indices of the non-chunked axes
    (in the chunked axes the index of a block is 0), and each block
    reads its chunk with these indices, a full slice for every chunked
    axis, the forward transpose and the shape of the chunked axes. The
    chunked axes are those whose label is in the reader's chunk
    dimensions after the call. *)
Theorem one_block_per_index (tiff : TiffFile) (dims_list : list string)
    (s : State) (scene : Scene) :
  series tiff !! _current_scene_index (self s) = Some scene →
  length (shape scene) = String.length (join dims_list) →
  NoDup (chars (join dims_list)) →
  ∃ s' plan,
    let blocks := lazy_arrays (_path (self s)) (_current_scene_index (self s))
                              (dtype scene) plan in
    _create_dask_array tiff dims_list s
    = (s', inr {| da_grid_shape := blocked_shape plan;
                  da_blocks := blocks;
                  da_axes := transpose_indices plan |})
    ∧ zip (non_chunk_dim_order plan) (non_chunk_shape plan)
      = filter (λ ds, ds.1 ∉ heap s' (chunk_dims (self s')))
               (zip (chars (join dims_list)) (shape scene))
    ∧ zip (chunk_dim_order plan) (chunk_shape plan)
      = filter (λ ds, ds.1 ∈ heap s' (chunk_dims (self s')))
               (zip (chars (join dims_list)) (shape scene))
    ∧ length blocks = shape_size (non_chunk_shape plan)
    ∧ NoDup (blocks.*1)
    ∧ (∀ ix, in_bounds ix (non_chunk_shape plan) →
         ∃ la, (ix ++ replicate (length (chunk_shape plan)) 0%nat, la) ∈ blocks)
    ∧ (∀ np_index la, (np_index, la) ∈ blocks →
         in_bounds (take (length (non_chunk_shape plan)) np_index)
                   (non_chunk_shape plan)
         ∧ np_index = take (length (non_chunk_shape plan)) np_index
                      ++ replicate (length (chunk_shape plan)) 0%nat
         ∧ la_retrieve_indices la = block_selector plan np_index
         ∧ la_transpose_indices la = transposer plan
         ∧ la_shape la = chunk_shape plan
         ∧ la_path la = _path (self s)
         ∧ la_scene la = _current_scene_index (self s)
         ∧ la_dtype la = dtype scene).
Proof.
  intros Hs Hlen Hdist.
  destruct (create_dask_array_ok tiff dims_list s scene Hs Hlen Hdist)
    as (s' & plan & Hrun & Hplan).
  destruct (create_dask_array_run tiff dims_list s)
    as (s2 & Hrun2 & Hself & Hnew & _).
  assert (s2 = s') as -> by congruence.
  assert (Hcd : heap s' (chunk_dims (self s'))
                = normalized_chunk_dims (heap s (chunk_dims (self s)))).
  { by rewrite Hself. }
  destruct (chunk_plan_fields _ _ _ _ Hplan)
    as (Hnc & Hncs & Hc & Hcs & _ & Hbs).
  destruct (partition_dims_zip (join dims_list) (shape scene)
              (normalized_chunk_dims (heap s (chunk_dims (self s)))))
    as [Hz1 Hz2].
  exists s', plan. intros blocks.
  split; [done |].
  split; [by rewrite Hcd, Hnc, Hncs |].
  split; [by rewrite Hcd, Hc, Hcs |].
  assert (Hfst : blocks.*1 = ndindex (blocked_shape plan)).
  { subst blocks. unfold lazy_arrays. rewrite <- list_fmap_compose.
    rewrite <- (list_fmap_id (ndindex (blocked_shape plan))) at 2.
    by apply list_fmap_ext. }
  assert (Hbs' : blocked_shape plan
                 = non_chunk_shape plan
                   ++ replicate (length (chunk_shape plan)) 1%nat).
  { by rewrite Hbs, Hncs, Hcs. }
  split.
  { rewrite <- (length_fmap fst), Hfst, ndindex_length, Hbs'.
    apply shape_size_app_ones. }
  split; [rewrite Hfst; apply ndindex_NoDup |].
  split.
  { intros ix Hix.
    assert (Hin : ix ++ replicate (length (chunk_shape plan)) 0%nat
                  ∈ blocks.*1).
    { rewrite Hfst, Hbs'. apply elem_of_ndindex, in_bounds_app_ones.
      pose proof (Forall2_length _ _ _ Hix) as Hl.
      rewrite <- Hl, take_app_length, drop_app_length. done. }
    apply list_elem_of_fmap in Hin as ([ix' la] & Heq & Hin).
    simpl in Heq. subst ix'. eauto. }
  intros np_index la Hin.
  assert (Hnp : np_index ∈ ndindex (blocked_shape plan)).
  { rewrite <- Hfst. apply list_elem_of_fmap. by exists (np_index, la). }
  rewrite Hbs' in Hnp. apply elem_of_ndindex, in_bounds_app_ones in Hnp
    as [Hpre Hpost].
  subst blocks. unfold lazy_arrays in Hin.
  apply list_elem_of_fmap in Hin as (ix & [= -> ->] & _).
  split; [done |].
  split; [by rewrite <- Hpost, take_drop |].
  done.
Qed.

(** ** Forcing a lazy block *)

Lemma index_shape_block (pre sizes rest : list nat) :
  in_bounds pre sizes →
  index_shape ((Idx <$> pre) ++ replicate (length rest) SliceAll)
              (sizes ++ rest)
  = inr rest.
Proof.
  unfold in_bounds. induction 1 as [|i n pre sizes Hi _ IH]; simpl.
  - induction rest as [|r rest IH]; simpl; [done |]. by rewrite IH.
  - destruct (Nat.ltb_spec i n); [done | lia].
Qed.

Lemma full_index_block (pre ix : list nat) (m : nat) :
  length ix = m →
  full_index ((Idx <$> pre) ++ replicate m SliceAll) ix = pre ++ ix.
Proof.
  intros <-. induction pre as [|i pre IH].
  - change (full_index (replicate (length ix) SliceAll) ix = ix).
    induction ix as [|j ix IH]; [done |].
    change (j :: full_index (replicate (length ix) SliceAll) ix = j :: ix).
    by rewrite IH.
  - change (i :: full_index ((Idx <$> pre) ++ replicate (length ix) SliceAll) ix
            = i :: pre ++ ix).
    by rewrite IH.
Qed.

Lemma zip_position_lookup (dims : list string) (shape sizes : list nat)
    (labels : list string) :
  NoDup dims →
  (∀ ds, ds ∈ zip labels sizes → ds ∈ zip dims shape) →
  length labels = length sizes →
  Forall2 (λ d n, shape !! position dims d = Some n) labels sizes.
Proof.
  intros Hnd Hsub Hlen. apply Forall2_same_length_lookup. split; [done |].
  intros i d n Hd Hn.
  assert (Hin : (d, n) ∈ zip dims shape).
  { apply Hsub. apply elem_of_lookup_zip_with. by exists i, d, n. }
  apply elem_of_lookup_zip_with in Hin as (j & d' & n' & [= <- <-] & Hj & Hn').
  by rewrite (position_NoDup dims d j).
Qed.

Lemma find_position (F : list nat) (j p : nat) :
  NoDup F → F !! j = Some p →
  fst <$> list_find (λ a, a = p) F = Some j.
Proof.
  intros Hnd Hj.
  assert (Hf : list_find (λ a, a = p) F = Some (j, p)).
  { apply list_find_Some. split; [done |]. split; [done |].
    intros k y Hk Hlt ->. pose proof (NoDup_lookup _ _ _ _ Hnd Hk Hj). lia. }
  by rewrite Hf.
Qed.

(** X8: forcing a lazy block of the delayed array (pairwise distinct
    dimensions) opens the file once, reads pixels once and yields an
    array of the declared shape whose element at a block index is the
    element of the scene at the index that takes, for every dimension,
    the entry of the block's indices followed by the block index at the
    place of the dimension in the blocked order. *)
Theorem forced_block_is_the_chunk (tiff : TiffFile) (dims_list : list string)
    (s s' s2 : State) (scene : Scene) (arr : DaskArray)
    (np_index : list nat) (la : LazyArray) :
  series tiff !! _current_scene_index (self s) = Some scene →
  length (shape scene) = String.length (join dims_list) →
  NoDup (chars (join dims_list)) →
  _create_dask_array tiff dims_list s = (s', inr arr) →
  (np_index, la) ∈ da_blocks arr →
  files s2 !! la_path la = Some (Tiff tiff) →
  ∃ chunk,
    _get_image_data (la_path la) (la_scene la) (la_retrieve_indices la)
                    (la_transpose_indices la) s2
    = (with_io_log (io_log s2 ++ [EvOpen (la_path la);
                                  EvReadPixels (la_path la) (la_scene la)]) s2,
       inr chunk)
    ∧ nd_shape chunk = la_shape la
    ∧ ∀ block_index,
        length block_index = length (la_shape la) →
        nd_at chunk block_index
        = data scene
            (scene_index_of (chars (join dims_list))
               (blocked_order (chars (join dims_list))
                  (heap s' (chunk_dims (self s'))))
               (take (length np_index - length (la_shape la)) np_index)
               block_index).
Proof.
  intros Hs Hlen Hnd Hrun Hin Hf.
  set (dims := chars (join dims_list)) in *.
  set (cd := normalized_chunk_dims (heap s (chunk_dims (self s)))).
  destruct (create_dask_array_ok tiff dims_list s scene Hs Hlen Hnd)
    as (s1 & plan & Hrun1 & Hplan).
  assert (Hcd : heap s' (chunk_dims (self s')) = cd).
  { destruct (create_dask_array_run tiff dims_list s)
      as (s3 & Hrun3 & Hself & Hnew & _).
    assert (s3 = s') as -> by congruence. by rewrite Hself. }
  rewrite Hcd. clear Hcd.
  rewrite Hrun in Hrun1. injection Hrun1 as -> ->.
  destruct (chunk_plan_spec (join dims_list) (shape scene) cd)
    as (plan' & Hplan' & _ & _ & Hb & Ht & _ & Hnl & Hcl & Hbs);
    [by rewrite length_chars |].
  assert (plan' = plan) as -> by (subst cd; congruence).
  fold dims in Hb, Ht.
  destruct (chunk_plan_fields _ _ _ _ Hplan) as (Hnc & Hncs & Hc & Hcs & _ & _).
  destruct (partition_dims_zip (join dims_list) (shape scene) cd) as [Hz1 Hz2].
  fold cd in Hnc, Hncs, Hc, Hcs. rewrite <- Hnc, <- Hncs in Hz1.
  rewrite <- Hc, <- Hcs in Hz2. fold dims in Hz1, Hz2.
  (* the block *)
  simpl in Hin. unfold lazy_arrays in Hin.
  apply list_elem_of_fmap in Hin as (ix & [= -> ->] & Hix). simpl in *.
  rewrite Hbs in Hix. apply elem_of_ndindex, in_bounds_app_ones in Hix
    as [Hpre Hpost].
  set (k := length (non_chunk_shape plan)) in *.
  assert (Hixlen : length ix = (k + length (chunk_shape plan))%nat).
  { rewrite <- (take_drop k ix), length_app, Hpost, length_replicate.
    pose proof (Forall2_length _ _ _ Hpre). lia. }
  replace (length ix - length (chunk_shape plan))%nat with k by lia.
  (* the transposed array *)
  set (B := blocked_order dims cd) in *.
  set (F := position dims <$> B).
  assert (HT : transposer plan = Z.of_nat <$> F).
  { rewrite Ht. subst F. by rewrite <- list_fmap_compose. }
  assert (HFnd : NoDup F) by (apply forward_NoDup; done).
  assert (HFlen : length F = length (shape scene)).
  { subst F. rewrite length_fmap. subst B.
    rewrite (blocked_length dims cd), Hlen. subst dims. by rewrite length_chars. }
  assert (Hshape : np_transpose (Z.of_nat <$> F) (shape scene)
                   = inr (non_chunk_shape plan ++ chunk_shape plan)).
  { apply np_transpose_nat; [done | done |].
    subst F. apply Forall2_fmap_l. rewrite <- Hb.
    destruct (chunk_plan_spec (join dims_list) (shape scene) cd)
      as (p2 & Hp2 & Hnc2 & Hc2 & Hb2 & _); [by rewrite length_chars |].
    assert (p2 = plan) as -> by (subst cd; congruence).
    rewrite Hb2. unfold blocked_order. rewrite <- Hnc2, <- Hc2.
    apply Forall2_app.
    - apply zip_position_lookup; [done | | done].
      intros ds. rewrite Hz1. by intros [_ ?]%list_elem_of_filter.
    - apply zip_position_lookup; [done | | done].
      intros ds. rewrite Hz2. by intros [_ ?]%list_elem_of_filter. }
  assert (Hpos : np_transpose (Z.of_nat <$> F) (seq 0 (length (shape scene)))
                 = inr F).
  { apply np_transpose_nat; [by rewrite length_seq | done |].
    apply Forall_Forall2_diag, Forall_forall. intros p Hp.
    apply lookup_seq_lt.
    unfold F, B in Hp.
    rewrite (forward_perm dims cd Hnd) in Hp. apply elem_of_seq in Hp.
    rewrite Hlen. subst dims. rewrite length_chars in Hp. lia. }
  exists {| nd_shape := chunk_shape plan;
            nd_at := λ bi,
              data scene
                ((λ p, default 0%nat
                         (j ← fst <$> list_find (λ a, a = p) F;
                          full_index (block_selector plan ix) bi !! j))
                 <$> seq 0 (length F)) |}.
  split.
  { unfold _get_image_data, mbind, M_bind, fs_open, lift, open_tiff, list_get,
      read_pixels, mret, M_ret.
    rewrite Hf. simpl. rewrite Hs. simpl.
    unfold nd_transpose. simpl. rewrite HT, Hshape. simpl. rewrite Hpos. simpl.
    unfold nd_getitem, block_selector. simpl.
    fold k. rewrite (index_shape_block _ _ _ Hpre). simpl.
    rewrite <- app_assoc. reflexivity. }
  split; [done |].
  intros bi Hbi. simpl. f_equal.
  unfold block_selector. fold k.
  rewrite full_index_block by done.
  unfold scene_index_of.
  apply list_eq_same_length with (length dims).
  - by rewrite length_fmap.
  - rewrite length_fmap, length_seq, HFlen, Hlen. subst dims.
    by rewrite length_chars.
  - intros i x y Hi Hx Hy.
    apply list_lookup_fmap_Some in Hx as (p & -> & Hp).
    apply lookup_seq in Hp as [-> _]. simpl in *.
    apply list_lookup_fmap_Some in Hy as (d & -> & Hd).
    destruct (restore_then_forward dims cd Hnd i Hi) as (j & Hj & Hj').
    rewrite (restore_lookup dims cd i d Hd) in Hj. injection Hj as <-.
    by rewrite (find_position F _ i HFnd Hj').
Qed.

(** ** Channel identifiers *)

Lemma uint_chars (u : Decimal.uint) (x : string) :
  x ∈ chars (DecimalString.NilEmpty.string_of_uint u) → x ∈ DIGITS.
Proof.
  unfold DIGITS.
  induction u as [|u IH|u IH|u IH|u IH|u IH|u IH|u IH|u IH|u IH|u IH]; simpl;
    [by intros ?%elem_of_nil | ..];
    (intros [->|Hx]%elem_of_cons; [|by apply IH]);
    repeat (first [by left | right]).
Qed.

Lemma str_of_nat_digits (n : nat) (x : string) :
  x ∈ chars (str_of_nat n) → x ∈ DIGITS.
Proof. apply uint_chars. Qed.

Lemma chars_append (a b : string) :
  chars (String.append a b) = chars a ++ chars b.
Proof. induction a as [|c a IH]; simpl; [done | by rewrite IH]. Qed.

(** Nothing is replaced in a string without the first character of
    [old]. *)
Lemma replace_absent (c0 : ascii) (old' new s : string) :
  String c0 EmptyString ∉ chars s →
  replace_from (String c0 old') new s 0 = s.
Proof.
  induction s as [|c s IH]; [done |]. intros Hnot.
  change (chars (String c s)) with (String c EmptyString :: chars s) in Hnot.
  apply not_elem_of_cons in Hnot as [Hc Hs].
  simpl. destruct (ascii_dec c0 c) as [->|_]; [done |].
  by rewrite IH.
Qed.

Lemma replace_skip (old new p s : string) :
  replace_from old new (String.append p s) (String.length p)
  = replace_from old new s 0.
Proof.
  induction p as [|c p IH]; simpl; [by destruct s | done].
Qed.

Lemma replace_match (old new : string) (c : ascii) (s : string) :
  String.prefix old (String c s) = true →
  replace_from old new (String c s) 0
  = String.append new (replace_from old new s (String.length old - 1)).
Proof.
  intros H.
  change (replace_from old new (String c s) 0)
    with (if String.prefix old (String c s)
          then String.append new
                 (replace_from old new s (String.length old - 1))
          else String c (replace_from old new s 0)).
  by rewrite H.
Qed.

Lemma prefix_append (p s : string) : String.prefix p (String.append p s) = true.
Proof.
  induction p as [|c p IH]; simpl; [by destruct s |].
  destruct (ascii_dec c c); [done | congruence].
Qed.

Lemma replace_image_prefix (n : nat) :
  str_replace "Image:" EmptyString (generate_ome_image_id n) = str_of_nat n.
Proof.
  unfold str_replace, generate_ome_image_id.
  change (String.append "Image:" (str_of_nat n))
    with (String "I" (String.append "mage:" (str_of_nat n))).
  rewrite replace_match
    by exact (prefix_append "Image:" (str_of_nat n)).
  change (String.length "Image:" - 1)%nat with (String.length "mage:").
  rewrite replace_skip.
  change (String.append EmptyString ?x) with x.
  apply replace_absent.
  intros Hin%str_of_nat_digits. unfold DIGITS in Hin.
  repeat (apply elem_of_cons in Hin as [Hin|Hin]; [discriminate |]).
  by apply elem_of_nil in Hin.
Qed.

Lemma generate_ome_channel_id_label (k i : nat) :
  generate_ome_channel_id (generate_ome_image_id k) (IdInt i)
  = channel_label k i.
Proof.
  unfold generate_ome_channel_id, channel_label.
  by rewrite replace_image_prefix.
Qed.

(** Two strings of digits followed by a colon: the colon splits them. *)
Lemma split_at_colon (a b a' b' : string) :
  ":" ∉ chars a → ":" ∉ chars a' →
  String.append a (String.append ":" b)
  = String.append a' (String.append ":" b') →
  a = a' ∧ b = b'.
Proof.
  revert a'. induction a as [|c a IH]; intros [|c' a'] Ha Ha' Heq;
    simpl in Heq.
  - injection Heq as H. by subst.
  - injection Heq as Hc H. subst. exfalso. apply Ha'. simpl. by left.
  - injection Heq as Hc H. subst. exfalso. apply Ha. simpl. by left.
  - injection Heq as Hc H. subst c'.
    change (chars (String c a)) with (String c EmptyString :: chars a) in Ha.
    change (chars (String c a')) with (String c EmptyString :: chars a') in Ha'.
    apply not_elem_of_cons in Ha as [_ Ha], Ha' as [_ Ha'].
    destruct (IH a' Ha Ha' H) as [-> ->]. done.
Qed.

Lemma str_of_nat_no_colon (n : nat) : ":" ∉ chars (str_of_nat n).
Proof.
  intros Hin%str_of_nat_digits. unfold DIGITS in Hin.
  repeat (apply elem_of_cons in Hin as [Hin|Hin]; [discriminate |]).
  by apply elem_of_nil in Hin.
Qed.

Lemma channel_label_inj (k i k' i' : nat) :
  channel_label k i = channel_label k' i' → k = k' ∧ i = i'.
Proof.
  unfold channel_label. intros H%append_inj_r.
  apply split_at_colon in H as [Hk Hi]; try apply str_of_nat_no_colon.
  split; by apply str_of_nat_inj.
Qed.

(** X9: the identifier of channel [i] of the scene with identifier
    "Image:k" is "Channel:k:i", and different pairs of scene and channel
    get different identifiers. *)
Theorem channel_ids_are_distinct (k i k' i' : nat) :
  generate_ome_channel_id (generate_ome_image_id k) (IdInt i)
  = String.append "Channel:"
      (String.append (str_of_nat k) (String.append ":" (str_of_nat i)))
  ∧ (generate_ome_channel_id (generate_ome_image_id k) (IdInt i)
     = generate_ome_channel_id (generate_ome_image_id k') (IdInt i') →
     k = k' ∧ i = i').
Proof.
  split; [apply generate_ome_channel_id_label |].
  rewrite !generate_ome_channel_id_label. apply channel_label_inj.
Qed.

(** ** Coordinates *)

Lemma list_index_position (l : list string) (x : string) :
  x ∈ l → list_index l x = Some (position l x).
Proof.
  intros Hin. unfold position.
  induction l as [|y l IH]; [by apply elem_of_nil in Hin |].
  simpl. destruct (decide (y = x)); [done |].
  apply elem_of_cons in Hin as [->|Hin]; [done |].
  rewrite (IH Hin). done.
Qed.

Lemma position_in_range (l : list string) (x : string) :
  x ∈ l → (position l x < length l)%nat.
Proof.
  intros Hin. unfold position.
  induction l as [|y l IH]; [by apply elem_of_nil in Hin |].
  simpl. destruct (decide (y = x)); simpl; [lia |].
  apply elem_of_cons in Hin as [->|Hin]; [done |].
  specialize (IH Hin). destruct (list_index l x); simpl in *; lia.
Qed.

(** X10: without channel names, the coordinates of a scene with a channel
    axis of size n are the n pairwise distinct identifiers
    "Channel:k:0", "Channel:k:1", ... of the scene; a scene without
    channel axis gets no coordinates. *)
Theorem default_channel_coords (dims : list string) (shape : list nat)
    (scene_index : nat) :
  length dims = length shape →
  ∃ coords,
    _get_coords dims shape scene_index None = inr coords
    ∧ (Channel ∉ dims → coords = ∅)
    ∧ (Channel ∈ dims →
       ∃ n ids,
         shape !! position dims Channel = Some n
         ∧ coords = {[ Channel := ChanList ids ]}
         ∧ length ids = n
         ∧ NoDup ids
         ∧ ∀ i, (i < n)%nat →
             ids !! i
             = Some (String.append "Channel:"
                       (String.append (str_of_nat scene_index)
                          (String.append ":" (str_of_nat i))))).
Proof.
  intros Hlen. unfold _get_coords, py_in.
  case_bool_decide as Hin.
  - pose proof (position_in_range dims Channel Hin) as Hlt.
    destruct (lookup_lt_is_Some_2 shape (position dims Channel)) as [n Hn];
      [lia |].
    unfold list_index_or_raise. rewrite (list_index_position _ _ Hin). simpl.
    unfold list_get. rewrite Hn. simpl.
    eexists. split; [reflexivity |]. split; [done |]. intros _.
    exists n, ((λ i, generate_ome_channel_id (generate_ome_image_id scene_index)
                       (IdInt i)) <$> seq 0 n).
    split; [done |]. split; [done |].
    split; [by rewrite length_fmap, length_seq |].
    split.
    + apply NoDup_fmap_2_strong; [|apply NoDup_seq].
      intros a b _ _. rewrite !generate_ome_channel_id_label.
      by intros [_ ?]%channel_label_inj.
    + intros i Hi. rewrite list_lookup_fmap, lookup_seq_lt by done. simpl.
      by rewrite generate_ome_channel_id_label.
  - eexists. split; [reflexivity |]. split; [done |]. done.
Qed.

(** ** Channel names *)

Lemma flat_names_are_names (names : list string) :
  forallb is_name (ChanName <$> names) = true
  ∧ names_of (ChanName <$> names) = names.
Proof.
  unfold names_of. induction names as [|n names [IH1 IH2]]; [done |].
  csimpl. by rewrite IH1, IH2.
Qed.

(** X11: channel names that [_get_channel_names_for_scene] returns have
    one entry per index of the channel axis and become the coordinates
    of that axis; the call leaves the state as it was. *)
Theorem channel_names_match_axis (image_shape : list nat) (dims : list string)
    (s s' : State) (item : channel_item) :
  _get_channel_names_for_scene image_shape dims s = (s', inr (Some item)) →
  s' = s
  ∧ Channel ∈ dims
  ∧ image_shape !! position dims Channel = Some (item_len item)
  ∧ ∃ coords,
      _get_coords dims image_shape (_current_scene_index (self s)) (Some item)
      = inr coords
      ∧ coords !! Channel = Some item.
Proof.
  intros Hrun.
  unfold _get_channel_names_for_scene, mbind, M_bind, get_self, lift, throw,
    mret, M_ret, list_get, ok, raise, list_index_or_raise, py_in in Hrun.
  simpl in Hrun.
  destruct (_channel_names (self s)) as [names|]; [|discriminate].
  assert (Hsel : ∃ it,
    (if bool_decide (Channel ∈ dims)
     then match list_index dims Channel with
          | Some i =>
              match image_shape !! i with
              | Some n => if (item_len it =? n)%nat
                          then (s, inr (Some it))
                          else (s, inl ConflictingArgumentsError)
              | None => (s, inl IndexError)
              end
          | None => (s, inl ValueError)
          end
     else (s, inl ConflictingArgumentsError))
    = (s', @inr exn _ (Some item))).
  { destruct (names !! 0%nat) as [[n|l]|]; simpl in Hrun; [| |discriminate].
    - destruct (forallb is_name names); simpl in Hrun; [|discriminate].
      exists (ChanList (names_of names)).
      case_bool_decide; simpl in Hrun; [|discriminate].
      destruct (list_index dims Channel); simpl in Hrun; [|discriminate].
      destruct (image_shape !! _); simpl in Hrun; [|discriminate].
      destruct (_ =? _)%nat; simpl in Hrun; done.
    - destruct (names !! _current_scene_index (self s)) as [it|];
        simpl in Hrun; [|discriminate].
      exists it.
      case_bool_decide; simpl in Hrun; [|discriminate].
      destruct (list_index dims Channel); simpl in Hrun; [|discriminate].
      destruct (image_shape !! _); simpl in Hrun; [|discriminate].
      destruct (_ =? _)%nat; simpl in Hrun; done. }
  clear Hrun. destruct Hsel as [it Hsel].
  case_bool_decide as Hin; [|discriminate].
  rewrite (list_index_position _ _ Hin) in Hsel.
  destruct (image_shape !! position dims Channel) as [n|]; [|discriminate].
  destruct (Nat.eqb_spec (item_len it) n) as [Heq|_]; [|discriminate].
  injection Hsel as <- <-. subst n. repeat split; try done.
  eexists. split; [reflexivity |]. apply lookup_singleton_eq.
Qed.

(** X12: for a flat, non-empty list of channel names,
    [_get_channel_names_for_scene] raises ConflictingArgumentsError when
    the scene has no channel axis or the count differs from the size of
    that axis, IndexError when the shape has no such axis, and otherwise
    returns the names. *)
Theorem flat_channel_names_outcome (image_shape : list nat)
    (dims names : list string) (s : State) :
  names ≠ [] →
  _channel_names (self s) = Some (ChanName <$> names) →
  _get_channel_names_for_scene image_shape dims s
  = (s,
     if bool_decide (Channel ∈ dims)
     then match image_shape !! position dims Channel with
          | None => inl IndexError
          | Some n =>
              if (length names =? n)%nat
              then inr (Some (ChanList names))
              else inl ConflictingArgumentsError
          end
     else inl ConflictingArgumentsError).
Proof.
  intros Hne Hc.
  destruct (flat_names_are_names names) as [Hall Hnames].
  assert (Hfirst : ∃ n, (ChanName <$> names) !! 0%nat = Some (ChanName n)).
  { destruct names as [|n names]; [done | by exists n]. }
  destruct Hfirst as [n Hfirst].
  set (given := ChanName <$> names) in *.
  unfold _get_channel_names_for_scene, mbind, M_bind, get_self, lift, throw,
    mret, M_ret, list_get, ok, raise, list_index_or_raise, py_in.
  cbv beta iota. rewrite Hc. cbv beta iota. rewrite Hfirst. cbv beta iota.
  rewrite Hall. cbv beta iota zeta. rewrite Hnames.
  case_bool_decide as Hin; simpl; [|done].
  rewrite (list_index_position _ _ Hin). simpl.
  destruct (image_shape !! position dims Channel) as [n'|]; simpl; [|done].
  by destruct (Nat.eqb_spec (length names) n').
Qed.

(** ** Laziness *)

(** X13: building the delayed array opens no file, reads no pixels and
    emits no message, whether it returns the array or raises. *)
Theorem create_dask_array_reads_nothing (tiff : TiffFile)
    (dims_list : list string) (s : State) :
  ∃ s' r,
    _create_dask_array tiff dims_list s = (s', r)
    ∧ files s' = files s
    ∧ io_log s' = io_log s
    ∧ messages s' = messages s.
Proof.
  destruct (create_dask_array_run tiff dims_list s)
    as (s' & Hrun & _ & _ & _ & _ & _ & Hf & Hi & Hm).
  eauto 10.
Qed.

(** ** Inferred dimensions fit the scene *)

(** X14: when no dim order was given and the axes string of the scene has
    one letter per axis, the inferred dimensions have one label per axis
    of the scene, so [_create_dask_array] never refuses them for their
    number: it returns the array when the labels are pairwise
    distinct, and raises the ValueError of the final transposition when
    a label repeats. *)
Theorem inferred_dims_fit `{BaseReader} (tiff : TiffFile) (scene : Scene)
    (s : State) :
  series tiff !! _current_scene_index (self s) = Some scene →
  String.length (axes scene) = length (shape scene) →
  _dim_order (self s) = DimNone →
  ∃ dims,
    _get_dims_for_scene tiff s = (s, inr dims)
    ∧ length dims = length (shape scene)
    ∧ (NoDup dims →
       ∃ s' arr, _create_dask_array tiff dims s = (s', inr arr))
    ∧ (¬ NoDup dims →
       ∃ s', _create_dask_array tiff dims s = (s', inl ValueError)).
Proof.
  intros Hs Hlen Hd.
  set (order := if all_known (axes scene) then axes scene
                else _merge_dim_guesses (axes scene)
                       (_guess_dim_order (shape scene))).
  assert (Hrun : _get_dims_for_scene tiff s = (s, inr (chars order))).
  { unfold _get_dims_for_scene, mbind at 1, M_bind at 1, get_self, ok.
    cbv beta iota. rewrite Hd. rewrite (guess_run tiff scene s Hs).
    subst order. by destruct (all_known (axes scene)). }
  assert (Hord : String.length order = length (shape scene)).
  { subst order. destruct (all_known (axes scene)); [done |].
    by rewrite merge_length. }
  assert (Hfit : length (shape scene) = String.length (join (chars order))).
  { by rewrite join_chars. }
  exists (chars order).
  split; [done |]. split; [by rewrite length_chars |].
  split.
  - intros Hnd.
    destruct (create_dask_array_ok tiff (chars order) s scene Hs Hfit)
      as (s' & plan & Hcreate & _); [by rewrite join_chars |].
    eauto.
  - intros Hnd.
    apply (create_dask_array_repeated tiff (chars order) s scene Hs Hfit).
    by rewrite join_chars.
Qed.

Section construction.

(** ** Construction *)

#[local] Arguments Nat.eqb : simpl never.
#[local] Arguments length : simpl never.

Ltac run_init :=
  unfold __init__, scenes, _is_supported_image, try_except, mbind, M_bind,
    pathlike_to_fs, emit, modify_self, get_self, fs_open, lift, throw, mret,
    M_ret, list_new, open_tiff.

Lemma init_result (s : State) (image : string)
    (chunk_dims_given : chunk_dims_arg) (dim_order : dim_order_arg)
    (channel_names : option (list channel_item)) (tiff : TiffFile) :
  files s !! image = Some (Tiff tiff) →
  _scenes (self s) = None →
  ∃ s',
    __init__ image chunk_dims_given dim_order channel_names s
    = (s', if dim_order_fits dim_order (length (series tiff))
              && channel_names_fit channel_names (length (series tiff))
           then inr tt
           else inl ConflictingArgumentsError).
Proof.
  intros Hf Hsc.
  assert (Hlen : length (generate_ome_image_id <$> seq 0 (length (series tiff)))
                 = length (series tiff)) by by rewrite length_fmap, length_seq.
  run_init.
  destruct (str_contains ".ome.tif" image), chunk_dims_given as [cs|cl],
    dim_order as [|ds|dl], channel_names as [[|[cn|cl'] rest]|];
    unfold dim_order_fits, channel_names_fit;
    simpl;
    repeat (first [rewrite Hf | rewrite Hsc | rewrite Hlen]; simpl);
    repeat (match goal with
            | |- context [(?a =? ?b)%nat] => destruct (a =? b)%nat; simpl
            end;
            repeat (first [rewrite Hf | rewrite Hsc | rewrite Hlen]; simpl));
    (eexists; reflexivity).
Qed.

Lemma init_fields (s : State) (image : string)
    (chunk_dims_given : chunk_dims_arg) (dim_order : dim_order_arg)
    (channel_names : option (list channel_item)) (tiff : TiffFile) :
  files s !! image = Some (Tiff tiff) →
  _scenes (self s) = None →
  dim_order_fits dim_order (length (series tiff)) = true →
  channel_names_fit channel_names (length (series tiff)) = true →
  ∃ s',
    __init__ image chunk_dims_given dim_order channel_names s = (s', inr tt)
    ∧ _dim_order (self s') = dim_order
    ∧ _channel_names (self s') = channel_names
    ∧ _current_scene_index (self s') = _current_scene_index (self s).
Proof.
  intros Hf Hsc Hdo Hcn.
  assert (Hlen : length (generate_ome_image_id <$> seq 0 (length (series tiff)))
                 = length (series tiff)) by by rewrite length_fmap, length_seq.
  run_init.
  destruct (str_contains ".ome.tif" image), chunk_dims_given as [cs|cl],
    dim_order as [|ds|dl], channel_names as [[|[cn|cl'] rest]|];
    unfold dim_order_fits, channel_names_fit in *;
    simpl;
    repeat (first [rewrite Hf | rewrite Hsc | rewrite Hlen | rewrite Hdo
                  | rewrite Hcn]; simpl);
    (eexists; split; [reflexivity |]; simpl; repeat split; done).
Qed.

(** X15: on a TIFF file, when a list of dim orders and a list of
    channel-name lists (if given) have one entry per scene, construction
    succeeds and stores the path, the dim order and the channel names; a
    [str] of chunk dimensions becomes a new list of its characters and a
    given list is stored as the same object, unchanged; the scene index
    and the cache of pixel sizes stay, and no pixels are read. *)
Theorem init_establishes_reader (s : State) (image : string)
    (chunk_dims_given : chunk_dims_arg) (dim_order : dim_order_arg)
    (channel_names : option (list channel_item)) (tiff : TiffFile) :
  files s !! image = Some (Tiff tiff) →
  _scenes (self s) = None →
  dim_order_fits dim_order (length (series tiff)) = true →
  channel_names_fit channel_names (length (series tiff)) = true →
  ∃ s',
    __init__ image chunk_dims_given dim_order channel_names s = (s', inr tt)
    ∧ _path (self s') = image
    ∧ _dim_order (self s') = dim_order
    ∧ _channel_names (self s') = channel_names
    ∧ match chunk_dims_given with
      | ChunkStr str =>
          chunk_dims (self s') = next_loc s
          ∧ heap s' (chunk_dims (self s')) = chars str
          ∧ ∀ l, l ≠ next_loc s → heap s' l = heap s l
      | ChunkList l =>
          chunk_dims (self s') = l ∧ ∀ l', heap s' l' = heap s l'
      end
    ∧ _current_scene_index (self s') = _current_scene_index (self s)
    ∧ _physical_pixel_sizes (self s') = _physical_pixel_sizes (self s)
    ∧ (∀ path scene, EvReadPixels path scene ∈ io_log s' →
         EvReadPixels path scene ∈ io_log s).
Proof.
  intros Hf Hsc Hdo Hcn.
  assert (Hlen : length (generate_ome_image_id <$> seq 0 (length (series tiff)))
                 = length (series tiff)) by by rewrite length_fmap, length_seq.
  run_init.
  destruct (str_contains ".ome.tif" image), chunk_dims_given as [cs|cl],
    dim_order as [|ds|dl], channel_names as [[|[cn|cl'] rest]|];
    unfold dim_order_fits, channel_names_fit in *;
    simpl;
    repeat (first [rewrite Hf | rewrite Hsc | rewrite Hlen | rewrite Hdo
                  | rewrite Hcn]; simpl);
    (eexists; split; [reflexivity |]; simpl;
     repeat split; try done;
     try (by rewrite decide_True by done);
     try (intros l Hl; by rewrite decide_False by done);
     try (intros path scene Hin;
          repeat (apply elem_of_app in Hin as [Hin | Hin%list_elem_of_singleton];
                  [|discriminate]); done)).
Qed.

(** X16: construction raises FileNotFoundError, without opening anything,
    when there is no file at the path; on a file that is no TIFF it
    raises TiffFileError when the scenes have to be counted (a list of
    dim orders, or lists of channel names per scene) and
    UnsupportedFileFormatError otherwise. *)
Theorem init_without_tiff (s : State) (image : string)
    (chunk_dims_given : chunk_dims_arg) (dim_order : dim_order_arg)
    (channel_names : option (list channel_item)) :
  _scenes (self s) = None →
  (files s !! image = None →
   ∃ s', __init__ image chunk_dims_given dim_order channel_names s
         = (s', inl FileNotFoundError)
         ∧ io_log s' = io_log s)
  ∧ (files s !! image = Some NotTiff →
     ∃ s', __init__ image chunk_dims_given dim_order channel_names s
           = (s', inl (if is_dim_list dim_order || is_nested channel_names
                       then TiffFileError
                       else UnsupportedFileFormatError))
           ∧ io_log s' = io_log s ++ [EvOpen image]).
Proof.
  intros Hsc. split; intros Hf; run_init.
  - destruct (str_contains ".ome.tif" image); simpl; rewrite Hf;
      eexists; split; reflexivity.
  - destruct (str_contains ".ome.tif" image), chunk_dims_given as [cs|cl],
      dim_order as [|ds|dl], channel_names as [[|[cn|cl'] rest]|];
      simpl;
      repeat (first [rewrite Hf | rewrite Hsc]; simpl);
      (eexists; split; reflexivity).
Qed.

(** X17: on a TIFF file construction succeeds exactly when the list of
    dim orders and the list of channel-name lists, if given, have one
    entry per scene; otherwise it raises ConflictingArgumentsError. *)
Theorem init_outcome_on_tiff (s : State) (image : string)
    (chunk_dims_given : chunk_dims_arg) (dim_order : dim_order_arg)
    (channel_names : option (list channel_item)) (tiff : TiffFile) :
  files s !! image = Some (Tiff tiff) →
  _scenes (self s) = None →
  ∃ s' r,
    __init__ image chunk_dims_given dim_order channel_names s = (s', r)
    ∧ (r = inr tt ↔
       dim_order_fits dim_order (length (series tiff)) = true
       ∧ channel_names_fit channel_names (length (series tiff)) = true)
    ∧ (r ≠ inr tt → r = inl ConflictingArgumentsError).
Proof.
  intros Hf Hsc.
  destruct (init_result s image chunk_dims_given dim_order channel_names tiff
              Hf Hsc) as (s' & Hrun).
  eexists _, _. split; [exact Hrun |].
  destruct (dim_order_fits _ _), (channel_names_fit _ _); simpl;
    (split; [split; [by intros; try discriminate | by intros []] |]);
    intros; done.
Qed.

(** ** Dimensions of a scene *)

(** X18: after a successful construction with a list of dim orders, and for
    a scene index within the file, the lookup of the scene's entry
    cannot fail: [_get_dims_for_scene] returns the characters of the
    entry, or infers the dimensions when the entry is None. *)
Theorem dims_lookup_safe_after_init `{BaseReader} (s s' : State)
    (image : string) (chunk_dims_given : chunk_dims_arg)
    (dim_order : list (option string))
    (channel_names : option (list channel_item)) (tiff : TiffFile) :
  files s !! image = Some (Tiff tiff) →
  _scenes (self s) = None →
  __init__ image chunk_dims_given (DimList dim_order) channel_names s
  = (s', inr tt) →
  (_current_scene_index (self s') < length (series tiff))%nat →
  ∃ entry,
    dim_order !! _current_scene_index (self s') = Some entry
    ∧ _get_dims_for_scene tiff s'
      = match entry with
        | Some given => (s', inr (chars given))
        | None => _guess_tiff_dim_order tiff s'
        end.
Proof.
  intros Hf Hsc Hrun Hidx.
  destruct (init_result s image chunk_dims_given (DimList dim_order)
              channel_names tiff Hf Hsc) as (s1 & Hout).
  rewrite Hrun in Hout.
  destruct (dim_order_fits _ _) eqn:Hdo; simpl in Hout; [|by inversion Hout].
  destruct (channel_names_fit _ _) eqn:Hcn; [|by inversion Hout].
  destruct (init_fields s image chunk_dims_given (DimList dim_order)
              channel_names tiff Hf Hsc Hdo Hcn) as (s2 & Hrun2 & Hd & _).
  assert (s2 = s') as -> by congruence.
  simpl in Hdo. apply Nat.eqb_eq in Hdo.
  destruct (lookup_lt_is_Some_2 dim_order (_current_scene_index (self s')))
    as [entry Hentry]; [lia |].
  exists entry. split; [done |].
  unfold _get_dims_for_scene, mbind at 1, M_bind at 1, get_self, ok.
  cbv beta iota. rewrite Hd.
  unfold mbind at 1, M_bind at 1, lift, list_get. rewrite Hentry.
  by destruct entry.
Qed.

(** ** Channel names after construction *)

(** X19: construction accepts an empty list of channel names, and the
    reader it leaves raises IndexError whenever the channel names of a
    scene are asked for. *)
Theorem empty_channel_names_raise (s : State) (image : string)
    (chunk_dims_given : chunk_dims_arg) (dim_order : dim_order_arg)
    (tiff : TiffFile) :
  files s !! image = Some (Tiff tiff) →
  _scenes (self s) = None →
  dim_order_fits dim_order (length (series tiff)) = true →
  ∃ s',
    __init__ image chunk_dims_given dim_order (Some []) s = (s', inr tt)
    ∧ ∀ image_shape dims,
        _get_channel_names_for_scene image_shape dims s'
        = (s', inl IndexError).
Proof.
  intros Hf Hsc Hdo.
  destruct (init_fields s image chunk_dims_given dim_order (Some []) tiff
              Hf Hsc Hdo eq_refl) as (s' & Hrun & _ & Hcn & _).
  exists s'. split; [done |]. intros image_shape dims.
  unfold _get_channel_names_for_scene, mbind at 1, M_bind at 1, get_self, ok.
  cbv beta iota. by rewrite Hcn.
Qed.

End construction.

(** ** The further properties at concrete inputs *)

Lemma merge_keeps_labels_distinct_witness :
  NoDup (known_labels (chars (_merge_dim_guesses "QYXI" "TCZYX"))).
Proof.
  apply (merge_keeps_labels_distinct "QYXI" "TCZYX").
  apply (bool_decide_unpack _). vm_compute. exact I.
Defined.

Lemma scenes_enumerates_series_witness :
  ∃ s' ids,
    scenes (example_state "a.tif" (Tiff two_scene_tiff) []) = (s', inr ids)
    ∧ length ids = 2%nat
    ∧ NoDup ids
    ∧ ids !! 1%nat = Some "Image:1"
    ∧ io_log s' = [EvOpen "a.tif"]
    ∧ scenes s' = (s', inr ids).
Proof.
  destruct (scenes_enumerates_series
              (example_state "a.tif" (Tiff two_scene_tiff) [])
              two_scene_tiff eq_refl eq_refl)
    as (s' & ids & Hrun & Hlen & Hnd & Hids & Hlog & Hagain).
  exists s', ids. split; [exact Hrun |]. split; [exact Hlen |].
  split; [exact Hnd |]. split; [|split; [exact Hlog | exact Hagain]].
  apply (Hids 1%nat). simpl. lia.
Defined.

Lemma init_establishes_reader_witness :
  ∃ s',
    __init__ "a.tif" (ChunkStr "ZYX") (DimList [Some "CYX"; None]) None
      (example_state "a.tif" (Tiff two_scene_tiff) [])
    = (s', inr tt)
    ∧ _path (self s') = "a.tif"
    ∧ _dim_order (self s') = DimList [Some "CYX"; None]
    ∧ heap s' (chunk_dims (self s')) = ["Z"; "Y"; "X"].
Proof.
  destruct (init_establishes_reader
              (example_state "a.tif" (Tiff two_scene_tiff) [])
              "a.tif" (ChunkStr "ZYX") (DimList [Some "CYX"; None]) None
              two_scene_tiff eq_refl eq_refl eq_refl eq_refl)
    as (s' & Hrun & Hpath & Hdo & _ & (_ & Hheap & _) & _).
  exists s'. split; [exact Hrun |]. split; [exact Hpath |].
  split; [exact Hdo | exact Hheap].
Defined.

Lemma init_without_tiff_witness :
  (∃ s', __init__ "b.tif" (ChunkStr "ZYX") DimNone None
           (example_state "a.txt" NotTiff [])
         = (s', inl FileNotFoundError))
  ∧ (∃ s', __init__ "a.txt" (ChunkStr "ZYX") DimNone None
             (example_state "a.txt" NotTiff [])
           = (s', inl UnsupportedFileFormatError))
  ∧ (∃ s', __init__ "a.txt" (ChunkStr "ZYX") (DimList [Some "YX"]) None
             (example_state "a.txt" NotTiff [])
           = (s', inl TiffFileError)).
Proof.
  split; [|split].
  - destruct (proj1 (init_without_tiff (example_state "a.txt" NotTiff [])
                       "b.tif" (ChunkStr "ZYX") DimNone None eq_refl) eq_refl)
      as (s' & Hrun & _).
    exists s'. exact Hrun.
  - destruct (proj2 (init_without_tiff (example_state "a.txt" NotTiff [])
                       "a.txt" (ChunkStr "ZYX") DimNone None eq_refl) eq_refl)
      as (s' & Hrun & _).
    exists s'. exact Hrun.
  - destruct (proj2 (init_without_tiff (example_state "a.txt" NotTiff [])
                       "a.txt" (ChunkStr "ZYX") (DimList [Some "YX"]) None
                       eq_refl) eq_refl)
      as (s' & Hrun & _).
    exists s'. exact Hrun.
Defined.

Lemma init_outcome_on_tiff_witness :
  ∃ s',
    __init__ "a.tif" (ChunkStr "ZYX") DimNone
      (Some [ChanList ["DAPI"]; ChanList ["DAPI"]; ChanList ["GFP"]])
      (example_state "a.tif" (Tiff two_scene_tiff) [])
    = (s', inl ConflictingArgumentsError).
Proof.
  destruct (init_outcome_on_tiff
              (example_state "a.tif" (Tiff two_scene_tiff) [])
              "a.tif" (ChunkStr "ZYX") DimNone
              (Some [ChanList ["DAPI"]; ChanList ["DAPI"]; ChanList ["GFP"]])
              two_scene_tiff eq_refl eq_refl)
    as (s' & r & Hrun & Hiff & Hfail).
  exists s'. rewrite Hrun. f_equal. apply Hfail.
  intros Hok. destruct (proj1 Hiff Hok) as [_ Hcn]. discriminate Hcn.
Defined.

Lemma dims_lookup_safe_after_init_witness :
  ∃ s',
    __init__ "a.tif" (ChunkStr "ZYX") (DimList [Some "CYX"; None]) None
      (example_state "a.tif" (Tiff two_scene_tiff) [])
    = (s', inr tt)
    ∧ @_get_dims_for_scene guess_from_TCZYX two_scene_tiff s'
      = (s', inr ["C"; "Y"; "X"]).
Proof.
  destruct (init_fields
              (example_state "a.tif" (Tiff two_scene_tiff) [])
              "a.tif" (ChunkStr "ZYX") (DimList [Some "CYX"; None]) None
              two_scene_tiff eq_refl eq_refl eq_refl eq_refl)
    as (s' & Hrun & _ & _ & Hidx).
  exists s'. split; [exact Hrun |].
  destruct (@dims_lookup_safe_after_init guess_from_TCZYX
              (example_state "a.tif" (Tiff two_scene_tiff) []) s'
              "a.tif" (ChunkStr "ZYX") [Some "CYX"; None] None
              two_scene_tiff eq_refl eq_refl Hrun)
    as (entry & Hentry & Hdims).
  - rewrite Hidx. simpl. lia.
  - rewrite Hidx in Hentry. injection Hentry as <-. exact Hdims.
Defined.

Lemma physical_pixel_sizes_cached_witness :
  ∃ s',
    physical_pixel_sizes
      (example_state "a.tif"
         (Tiff (example_tiff
                  (("ResolutionUnit", RESUNIT.CENTIMETER) :: four_per_unit)))
         ["Z"; "Y"; "X"])
    = (s', inr (VNone, VFloat (1e4 / 4), VFloat (1e4 / 4)))
    ∧ messages s' = []
    ∧ io_log s' = [EvOpen "a.tif"]
    ∧ physical_pixel_sizes s'
      = (s', inr (VNone, VFloat (1e4 / 4), VFloat (1e4 / 4))).
Proof.
  destruct (physical_pixel_sizes_cached
              (example_state "a.tif"
                 (Tiff (example_tiff
                    (("ResolutionUnit", RESUNIT.CENTIMETER) :: four_per_unit)))
                 ["Z"; "Y"; "X"])
              (Tiff (example_tiff
                 (("ResolutionUnit", RESUNIT.CENTIMETER) :: four_per_unit)))
              (VNone, VFloat (1e4 / 4), VFloat (1e4 / 4))
              eq_refl eq_refl eq_refl)
    as (s' & Hrun & Hmsg & Hlog & Hagain).
  exists s'. split; [exact Hrun |]. split; [exact Hmsg |].
  split; [exact Hlog | exact (Hagain s' eq_refl)].
Defined.

Lemma imagej_unit_takes_precedence_witness :
  _get_pixel_size
    (Tiff (example_imagej
             (("ResolutionUnit", RESUNIT.CENTIMETER) :: four_per_unit)
             [("unit", VStr "mm"); ("spacing", VFloat 0.5)])) 0
  = _get_pixel_size
      (Tiff (example_imagej four_per_unit
               [("unit", VStr "mm"); ("spacing", VFloat 0.5)])) 0.
Proof.
  apply (imagej_unit_takes_precedence
           (example_imagej four_per_unit
              [("unit", VStr "mm"); ("spacing", VFloat 0.5)])
           (example_imagej
              (("ResolutionUnit", RESUNIT.CENTIMETER) :: four_per_unit)
              [("unit", VStr "mm"); ("spacing", VFloat 0.5)])
           (example_scene four_per_unit)
           (example_scene
              (("ResolutionUnit", RESUNIT.CENTIMETER) :: four_per_unit))
           {| tags := list_to_map four_per_unit |}
           {| tags := list_to_map
                (("ResolutionUnit", RESUNIT.CENTIMETER) :: four_per_unit) |}
           0%nat);
    reflexivity.
Defined.

Lemma one_block_per_index_witness :
  ∃ s' plan,
    _create_dask_array (stack_tiff "TZYX" [2; 3; 64; 64]%nat) (chars "TZYX")
      (example_state "a.tif"
         (Tiff (stack_tiff "TZYX" [2; 3; 64; 64]%nat)) ["Y"; "X"])
    = (s', inr (assemble "a.tif" 0 "uint16" plan))
    ∧ length (lazy_arrays "a.tif" 0 "uint16" plan)
      = shape_size (non_chunk_shape plan)
    ∧ NoDup (lazy_arrays "a.tif" 0 "uint16" plan).*1.
Proof.
  destruct (one_block_per_index
              (stack_tiff "TZYX" [2; 3; 64; 64]%nat) (chars "TZYX")
              (example_state "a.tif"
                 (Tiff (stack_tiff "TZYX" [2; 3; 64; 64]%nat)) ["Y"; "X"])
              (example_scene_of [2; 3; 64; 64]%nat "TZYX" [])
              eq_refl eq_refl)
    as (s' & plan & Hrun & _ & _ & Hlen & Hnd & _).
  { apply (bool_decide_unpack _). vm_compute. exact I. }
  exists s', plan. split; [exact Hrun |]. split; [exact Hlen | exact Hnd].
Defined.

Lemma forced_block_is_the_chunk_witness :
  ∃ chunk,
    _get_image_data "a.tif" 0 [Idx 1; SliceAll; SliceAll; SliceAll]
      [1; 0; 2; 3]
      (example_state "a.tif"
         (Tiff (stack_tiff "TZYX" [2; 3; 64; 64]%nat)) ["T"; "Y"; "X"])
    = (with_io_log [EvOpen "a.tif"; EvReadPixels "a.tif" 0]
         (example_state "a.tif"
            (Tiff (stack_tiff "TZYX" [2; 3; 64; 64]%nat)) ["T"; "Y"; "X"]),
       inr chunk)
    ∧ nd_shape chunk = [2; 64; 64]%nat
    ∧ nd_at chunk [1; 2; 3]%nat = 1001002003.
Proof.
  destruct (forced_block_is_the_chunk
              (stack_tiff "TZYX" [2; 3; 64; 64]%nat) (chars "TZYX")
              (example_state "a.tif"
                 (Tiff (stack_tiff "TZYX" [2; 3; 64; 64]%nat)) ["T"; "Y"; "X"])
              (_create_dask_array
                 (stack_tiff "TZYX" [2; 3; 64; 64]%nat) (chars "TZYX")
                 (example_state "a.tif"
                    (Tiff (stack_tiff "TZYX" [2; 3; 64; 64]%nat))
                    ["T"; "Y"; "X"])).1
              (example_state "a.tif"
                 (Tiff (stack_tiff "TZYX" [2; 3; 64; 64]%nat)) ["T"; "Y"; "X"])
              (example_scene_of [2; 3; 64; 64]%nat "TZYX" [])
              (assemble "a.tif" 0 "uint16"
                 {| non_chunk_dim_order := ["Z"]; non_chunk_shape := [3%nat];
                    chunk_dim_order := ["T"; "Y"; "X"];
                    chunk_shape := [2; 64; 64]%nat;
                    blocked_dim_order := ["Z"; "T"; "Y"; "X"];
                    blocked_shape := [3; 1; 1; 1]%nat;
                    transposer := [1; 0; 2; 3];
                    transpose_indices := [1; 0; 2; 3] |})
              [1; 0; 0; 0]%nat
              {| la_path := "a.tif"; la_scene := 0;
                 la_retrieve_indices := [Idx 1; SliceAll; SliceAll; SliceAll];
                 la_transpose_indices := [1; 0; 2; 3];
                 la_shape := [2; 64; 64]%nat; la_dtype := "uint16" |}
              eq_refl eq_refl)
    as (chunk & Hrun & Hshape & Hat).
  - apply (bool_decide_unpack _). vm_compute. exact I.
  - reflexivity.
  - apply (list_elem_of_lookup_2 _ 1%nat). reflexivity.
  - reflexivity.
  - exists chunk. split; [exact Hrun |]. split; [exact Hshape |].
    exact (Hat [1; 2; 3]%nat eq_refl).
Defined.

Lemma default_channel_coords_witness :
  ∃ coords,
    _get_coords ["T"; "C"; "Y"; "X"] [5; 2; 64; 64]%nat 1 None = inr coords
    ∧ coords = {[ Channel := ChanList ["Channel:1:0"; "Channel:1:1"] ]}.
Proof.
  destruct (default_channel_coords ["T"; "C"; "Y"; "X"] [5; 2; 64; 64]%nat 1
              eq_refl)
    as (coords & Hrun & _ & Hc).
  exists coords. split; [exact Hrun |].
  destruct Hc as (n & ids & Hn & -> & Hlen & _ & Hids).
  - apply (bool_decide_unpack _). vm_compute. exact I.
  - injection Hn as <-.
    pose proof (Hids 0%nat ltac:(lia)) as H0.
    pose proof (Hids 1%nat ltac:(lia)) as H1.
    destruct ids as [|a [|b [|c ids]]]; try discriminate Hlen.
    injection H0 as ->. injection H1 as ->. reflexivity.
Defined.

Lemma channel_names_match_axis_witness :
  _get_channel_names_for_scene [2; 64; 64]%nat ["C"; "Y"; "X"]
    (with_channel_names [ChanName "DAPI"; ChanName "GFP"]
       (example_state "a.tif" (Tiff (stack_tiff "CYX" [2; 64; 64]%nat)) []))
  = (with_channel_names [ChanName "DAPI"; ChanName "GFP"]
       (example_state "a.tif" (Tiff (stack_tiff "CYX" [2; 64; 64]%nat)) []),
     inr (Some (ChanList ["DAPI"; "GFP"])))
  ∧ ∃ coords,
      _get_coords ["C"; "Y"; "X"] [2; 64; 64]%nat 0
        (Some (ChanList ["DAPI"; "GFP"])) = inr coords
      ∧ coords !! Channel = Some (ChanList ["DAPI"; "GFP"]).
Proof.
  split; [reflexivity |].
  exact (proj2 (proj2 (proj2 (channel_names_match_axis
           [2; 64; 64]%nat ["C"; "Y"; "X"]
           (with_channel_names [ChanName "DAPI"; ChanName "GFP"]
              (example_state "a.tif"
                 (Tiff (stack_tiff "CYX" [2; 64; 64]%nat)) []))
           (with_channel_names [ChanName "DAPI"; ChanName "GFP"]
              (example_state "a.tif"
                 (Tiff (stack_tiff "CYX" [2; 64; 64]%nat)) []))
           (ChanList ["DAPI"; "GFP"]) eq_refl)))).
Defined.

Lemma flat_channel_names_outcome_witness :
  _get_channel_names_for_scene [3; 64; 64]%nat ["C"; "Y"; "X"]
    (with_channel_names [ChanName "DAPI"; ChanName "GFP"]
       (example_state "a.tif" (Tiff (stack_tiff "CYX" [3; 64; 64]%nat)) []))
  = (with_channel_names [ChanName "DAPI"; ChanName "GFP"]
       (example_state "a.tif" (Tiff (stack_tiff "CYX" [3; 64; 64]%nat)) []),
     inl ConflictingArgumentsError)
  ∧ _get_channel_names_for_scene [64; 64]%nat ["Y"; "X"]
      (with_channel_names [ChanName "DAPI"; ChanName "GFP"]
         (example_state "a.tif" (Tiff (stack_tiff "YX" [64; 64]%nat)) []))
    = (with_channel_names [ChanName "DAPI"; ChanName "GFP"]
         (example_state "a.tif" (Tiff (stack_tiff "YX" [64; 64]%nat)) []),
       inl ConflictingArgumentsError).
Proof.
  split.
  - exact (flat_channel_names_outcome [3; 64; 64]%nat ["C"; "Y"; "X"]
             ["DAPI"; "GFP"]
             (with_channel_names [ChanName "DAPI"; ChanName "GFP"]
                (example_state "a.tif"
                   (Tiff (stack_tiff "CYX" [3; 64; 64]%nat)) []))
             ltac:(discriminate) eq_refl).
  - exact (flat_channel_names_outcome [64; 64]%nat ["Y"; "X"]
             ["DAPI"; "GFP"]
             (with_channel_names [ChanName "DAPI"; ChanName "GFP"]
                (example_state "a.tif"
                   (Tiff (stack_tiff "YX" [64; 64]%nat)) []))
             ltac:(discriminate) eq_refl).
Defined.

Lemma inferred_dims_fit_witness :
  ∃ s' arr,
    @_get_dims_for_scene guess_from_TCZYX (stack_tiff "QYX" [3; 64; 64]%nat)
      (example_state "a.tif" (Tiff (stack_tiff "QYX" [3; 64; 64]%nat))
         ["Z"; "Y"; "X"])
    = (example_state "a.tif" (Tiff (stack_tiff "QYX" [3; 64; 64]%nat))
         ["Z"; "Y"; "X"], inr ["Z"; "Y"; "X"])
    ∧ _create_dask_array (stack_tiff "QYX" [3; 64; 64]%nat) ["Z"; "Y"; "X"]
        (example_state "a.tif" (Tiff (stack_tiff "QYX" [3; 64; 64]%nat))
           ["Z"; "Y"; "X"])
      = (s', inr arr).
Proof.
  destruct (@inferred_dims_fit guess_from_TCZYX
              (stack_tiff "QYX" [3; 64; 64]%nat)
              (example_scene_of [3; 64; 64]%nat "QYX" [])
              (example_state "a.tif" (Tiff (stack_tiff "QYX" [3; 64; 64]%nat))
                 ["Z"; "Y"; "X"])
              eq_refl eq_refl eq_refl)
    as (dims & Hdims & _ & Hok & _).
  injection Hdims as <-.
  destruct Hok as (s' & arr & Hrun).
  { apply (bool_decide_unpack _). vm_compute. exact I. }
  exists s', arr. split; [reflexivity | exact Hrun].
Defined.

Lemma empty_channel_names_raise_witness :
  ∃ s',
    __init__ "a.tif" (ChunkStr "ZYX") DimNone (Some [])
      (example_state "a.tif" (Tiff two_scene_tiff) [])
    = (s', inr tt)
    ∧ _get_channel_names_for_scene [3; 512; 512]%nat ["C"; "Y"; "X"] s'
      = (s', inl IndexError).
Proof.
  destruct (empty_channel_names_raise
              (example_state "a.tif" (Tiff two_scene_tiff) [])
              "a.tif" (ChunkStr "ZYX") DimNone two_scene_tiff
              eq_refl eq_refl eq_refl)
    as (s' & Hrun & Hnames).
  exists s'. split; [exact Hrun | apply Hnames].
Defined.
